(** * GSM_Utils: sample buffer, timer gate and connection manager

    A shallow embedding of [GSM_Utils.cpp] / [GSM_Utils.h] (Arduino MKR GSM
    1400, a 32-bit SAMD21 target: [int] is 32 bits wide, [unsigned long] is
    32 bits wide) together with the properties the specification states
    about it.

    Conventions.
    - An [int] is a [Z] in [INT_MIN .. INT_MAX]; an [unsigned long] is a [Z]
      in [0 .. 2^32 - 1] and its arithmetic is reduced by [wrap_ulong].
    - A [char] array is a [list ascii]; a store or a load outside the array
      is undefined behaviour in C and is reported as the outcome
      [OutOfBounds i], an integer division by zero as [DivideByZero].
    - The modem, the TLS client, the serial console and the millisecond
      clock are the outside world: their answers are taken from an
      environment [Env], and what the program does to them is appended to
      a log of events. *)

From Stdlib Require Import ZArith Lia Ascii String.
From stdpp Require Import base tactics option list numbers strings.

Local Open Scope Z_scope.

(* ##################################################################### *)
(** * Part I: the program *)
(* ##################################################################### *)

(* ===================================================================== *)
(** * Machine integers *)
(* ===================================================================== *)

Definition INT_MIN : Z := - 2 ^ 31.
Definition INT_MAX : Z := 2 ^ 31 - 1.

Definition in_int (v : Z) : Prop := INT_MIN <= v <= INT_MAX.

Definition ULONG_MODULUS : Z := 2 ^ 32.

(** Arithmetic on [unsigned long] wraps around modulo [2^32]. *)
Definition wrap_ulong (z : Z) : Z := z mod ULONG_MODULUS.

Definition in_ulong (v : Z) : Prop := 0 <= v < ULONG_MODULUS.

(* ===================================================================== *)
(** * Outcomes of code that may run into undefined behaviour *)
(* ===================================================================== *)

Inductive outcome (A : Type) : Type :=
| Done (a : A)
| OutOfBounds (index : Z)
| DivideByZero.

Arguments Done {A} a.
Arguments OutOfBounds {A} index.
Arguments DivideByZero {A}.

#[global] Instance outcome_ret : MRet outcome := fun A a => Done a.

#[global] Instance outcome_bind : MBind outcome := fun A B k m =>
  match m with
  | Done a => k a
  | OutOfBounds i => OutOfBounds i
  | DivideByZero => DivideByZero
  end.

(** [a / b] on [int]: truncation towards zero, undefined for [b = 0]. *)
Definition int_div (a b : Z) : outcome Z :=
  if b =? 0 then DivideByZero else Done (Z.quot a b).

(* ===================================================================== *)
(** * Character arrays *)
(* ===================================================================== *)

Definition NUL : ascii := Ascii.zero.
Definition SPACE : ascii := " "%char.
Definition MINUS : ascii := "-"%char.

(** [arr[i] = c] *)
Definition store (arr : list ascii) (i : Z) (c : ascii) : outcome (list ascii) :=
  if (0 <=? i) && (i <? Z.of_nat (length arr))
  then Done (<[Z.to_nat i := c]> arr)
  else OutOfBounds i.

(** Storing a run of characters from index [i] on, one [store] each. *)
Fixpoint store_all (arr : list ascii) (i : Z) (cs : list ascii) : outcome (list ascii) :=
  match cs with
  | [] => Done arr
  | c :: cs' => arr' ← store arr i c; store_all arr' (i + 1) cs'
  end.

(** The C string held by an array: the characters before the first NUL. *)
Fixpoint cstring (arr : list ascii) : list ascii :=
  match arr with
  | [] => []
  | c :: arr' => if Ascii.eqb c NUL then [] else c :: cstring arr'
  end.

(* ===================================================================== *)
(** * printf's [%d] *)
(* ===================================================================== *)

Definition digit_char (d : Z) : ascii := ascii_of_N (48 + Z.to_N d).

Definition digit_val (c : ascii) : Z := Z.of_N (N_of_ascii c) - 48.

Definition is_digit (c : ascii) : bool :=
  (48 <=? Z.of_N (N_of_ascii c)) && (Z.of_N (N_of_ascii c) <=? 57).

(** Decimal digits of [n >= 0], most significant first, in front of [acc].
    [fuel] bounds the number of digits produced. *)
Fixpoint digits_aux (fuel : nat) (n : Z) (acc : list ascii) : list ascii :=
  match fuel with
  | O => acc
  | S fuel' =>
      let acc' := digit_char (n mod 10) :: acc in
      if n / 10 =? 0 then acc' else digits_aux fuel' (n / 10) acc'
  end.

(** A number below [2^k] has at most [k] decimal digits. *)
Definition digits (n : Z) : list ascii :=
  digits_aux (S (Z.to_nat (Z.log2 n))) n [].

(** [%d] *)
Definition fmt_d (v : Z) : list ascii :=
  if v <? 0 then MINUS :: digits (- v) else digits v.

(** ["%d "] *)
Definition fmt_d_sp (v : Z) : list ascii := fmt_d v ++ [SPACE].

(** [snprintf(arr + pos, size, "%d ", v)]: at most [size - 1] characters of
    the rendering are stored from [arr + pos] on, followed by a NUL; nothing
    is stored when [size] is [0]. The value returned is the length of the
    whole rendering, whether or not it was cut. Both callers pass a [size]
    of at least 11, their loop guards keeping [pos] ten below the end. *)
Definition snprintf_d_sp (arr : list ascii) (pos size : Z) (v : Z)
  : outcome (list ascii * Z) :=
  let text := fmt_d_sp v in
  if size <=? 0 then Done (arr, Z.of_nat (length text))
  else
    arr' ← store_all arr pos (take (Z.to_nat (size - 1)) text ++ [NUL]);
    Done (arr', Z.of_nat (length text)).

(* ===================================================================== *)
(** * Reading a chunk back: the receiver's side of the wire format *)
(* ===================================================================== *)

(** Value of a run of decimal digits, read left to right. *)
Definition parse_digits (ds : list ascii) : Z :=
  foldl (fun a c => a * 10 + digit_val c) 0 ds.

Definition parse_int (tok : list ascii) : Z :=
  match tok with
  | c :: ds => if Ascii.eqb c MINUS then - parse_digits ds else parse_digits tok
  | [] => 0
  end.

(** The space-separated fields of a text; [cur] is the field being read,
    last character first. Empty fields are skipped. *)
Fixpoint fields (cur : list ascii) (s : list ascii) : list (list ascii) :=
  match s with
  | [] => match cur with [] => [] | _ => [rev cur] end
  | c :: s' =>
      if Ascii.eqb c SPACE
      then match cur with
           | [] => fields [] s'
           | _ => rev cur :: fields [] s'
           end
      else fields (c :: cur) s'
  end.

(** The samples a chunk decodes to. *)
Definition decode (text : list ascii) : list Z :=
  map parse_int (fields [] text).

(* ===================================================================== *)
(** * NonBlockingDelay *)
(* ===================================================================== *)

Record NonBlockingDelay : Type := mkDelay {
  startTime : Z;   (* unsigned long *)
  duration : Z     (* unsigned long *)
}.

(** [NonBlockingDelay::NonBlockingDelay(ms)], [now] being what [millis()]
    returns. *)
Definition NonBlockingDelay_new (now ms : Z) : NonBlockingDelay :=
  {| startTime := now; duration := ms |}.

(** [NonBlockingDelay::isComplete] *)
Definition isComplete (now : Z) (d : NonBlockingDelay) : bool :=
  duration d <=? wrap_ulong (now - startTime d).

(** [NonBlockingDelay::reset] *)
Definition reset (now ms : Z) (d : NonBlockingDelay) : NonBlockingDelay :=
  {| startTime := now;
     duration := if 0 <? ms then ms else duration d |}.

(* ===================================================================== *)
(** * SensorBuffer *)
(* ===================================================================== *)

Definition MAX_SAMPLES : Z := 500.

Record SensorBuffer : Type := mkSensorBuffer {
  samples : list Z;      (* int samples[MAX_SAMPLES] *)
  sampleCount : Z;       (* int *)
  currentIndex : Z       (* int *)
}.

(** [SensorBuffer::clear] *)
Definition clear (b : SensorBuffer) : SensorBuffer :=
  {| samples := replicate (Z.to_nat MAX_SAMPLES) 0;
     sampleCount := 0;
     currentIndex := 0 |}.

(** [SensorBuffer::SensorBuffer]: both counters are set to zero and the
    body calls [clear], which zeroes the array whatever it held. *)
Definition SensorBuffer_new : SensorBuffer :=
  clear {| samples := replicate (Z.to_nat MAX_SAMPLES) 0;
           sampleCount := 0;
           currentIndex := 0 |}.

(** [SensorBuffer::addSample] *)
Definition addSample (value : Z) (b : SensorBuffer) : SensorBuffer :=
  if currentIndex b <? MAX_SAMPLES then
    {| samples := <[Z.to_nat (currentIndex b) := value]> (samples b);
       sampleCount := currentIndex b + 1;
       currentIndex := currentIndex b + 1 |}
  else b.

(** [SensorBuffer::getSampleCount] *)
Definition getSampleCount (b : SensorBuffer) : Z := sampleCount b.

(** [SensorBuffer::isFull] *)
Definition isFull (b : SensorBuffer) : bool := MAX_SAMPLES <=? currentIndex b.

(** A run of [addSample] calls, first value first. *)
Definition addSamples (vs : list Z) (b : SensorBuffer) : SensorBuffer :=
  foldl (fun b v => addSample v b) b vs.

(** [samples[i]] *)
Definition sample_at (b : SensorBuffer) (i : Z) : outcome Z :=
  if 0 <=? i then
    match samples b !! Z.to_nat i with
    | Some v => Done v
    | None => OutOfBounds i
    end
  else OutOfBounds i.

(** The samples the buffer holds, oldest first. *)
Definition stored (b : SensorBuffer) : list Z :=
  take (Z.to_nat (sampleCount b)) (samples b).

(** The states the class can be in: the array has its declared length, the
    two counters agree and stay within the array, and every slot holds an
    [int]. *)
Record wf_buffer (b : SensorBuffer) : Prop := {
  wf_length : Z.of_nat (length (samples b)) = MAX_SAMPLES;
  wf_index : 0 <= currentIndex b <= MAX_SAMPLES;
  wf_count : sampleCount b = currentIndex b;
  wf_ints : Forall in_int (samples b)
}.

(** The states reached through the public interface. *)
Inductive reachable : SensorBuffer -> Prop :=
| reach_new : reachable SensorBuffer_new
| reach_add v b : in_int v -> reachable b -> reachable (addSample v b)
| reach_clear b : reachable b -> reachable (clear b).

(** The body shared by the two printing loops,
    [for (i = ...; i < last && pos < limit; i++)] with [last - i = n]:
    [snprintf] of ["%d "] into [arr + pos] with [cap - pos] bytes of room,
    [pos] advanced by what [snprintf] returns when that is positive. *)
Fixpoint print_loop (b : SensorBuffer) (limit cap : Z)
    (n : nat) (i : Z) (arr : list ascii) (pos : Z) : outcome (list ascii * Z) :=
  match n with
  | O => Done (arr, pos)
  | S n' =>
      if pos <? limit then
        v ← sample_at b i;
        '(arr', written) ← snprintf_d_sp arr pos (cap - pos) v;
        print_loop b limit cap n' (i + 1) arr'
                   (if 0 <? written then pos + written else pos)
      else Done (arr, pos)
  end.

(** [SensorBuffer::getDataAsString]; [buffer] is the caller's array. *)
Definition getDataAsString (b : SensorBuffer) (buffer : list ascii) (maxLength : Z)
  : outcome (list ascii) :=
  '(buffer', pos) ← print_loop b (maxLength - 10) maxLength
                       (Z.to_nat (sampleCount b)) 0 buffer 0;
  store buffer' pos NUL.

(** Width of a row of [char chunks[][200]] and the guard of the inner loop. *)
Definition CHUNK_WIDTH : Z := 200.
Definition CHUNK_GUARD : Z := 190.

(** [samplesPerChunk] as [getDataAsChunks] computes it. *)
Definition samplesPerChunk (b : SensorBuffer) (maxChunks : Z) : outcome Z :=
  q ← int_div (sampleCount b) maxChunks;
  Done (if q =? 0 then 1 else q).

(** One turn of the outer loop of [getDataAsChunks] for row [chunk]. A row
    the caller's array does not have is a row of no characters: the first
    store into it is out of bounds. *)
Definition chunk_body (b : SensorBuffer) (per : Z) (chunk : Z)
    (chunks : list (list ascii)) (chunkCount : Z)
  : outcome (list (list ascii) * Z) :=
  let startSample := chunk * per in
  let endSample := Z.min (startSample + per) (sampleCount b) in
  let row := default [] (chunks !! Z.to_nat chunk) in
  '(row', pos) ← print_loop b CHUNK_GUARD CHUNK_WIDTH
                    (Z.to_nat (endSample - startSample)) startSample row 0;
  if 0 <? pos then
    row'' ← store row' pos NUL;
    Done (<[Z.to_nat chunk := row'']> chunks, chunkCount + 1)
  else Done (<[Z.to_nat chunk := row']> chunks, chunkCount).

(** [for (chunk = ...; chunk < maxChunks && chunkCount < maxChunks; chunk++)]
    with [maxChunks - chunk = n]. *)
Fixpoint chunk_loop (b : SensorBuffer) (maxChunks per : Z)
    (n : nat) (chunk : Z) (chunks : list (list ascii)) (chunkCount : Z)
  : outcome (list (list ascii) * Z) :=
  match n with
  | O => Done (chunks, chunkCount)
  | S n' =>
      if chunkCount <? maxChunks then
        '(chunks', chunkCount') ← chunk_body b per chunk chunks chunkCount;
        chunk_loop b maxChunks per n' (chunk + 1) chunks' chunkCount'
      else Done (chunks, chunkCount)
  end.

(** [SensorBuffer::getDataAsChunks]: the caller's array after the call and
    the value left in [chunkCount]. *)
Definition getDataAsChunks (b : SensorBuffer) (chunks : list (list ascii))
    (maxChunks : Z) : outcome (list (list ascii) * Z) :=
  per ← samplesPerChunk b maxChunks;
  chunk_loop b maxChunks per (Z.to_nat maxChunks) 0 chunks 0.

(** The text of row [c] of a chunk array. *)
Definition chunk_text (chunks : list (list ascii)) (c : nat) : list ascii :=
  cstring (default [] (chunks !! c)).

(** An array of [k] rows, every byte zero. *)
Definition blank_chunks (k : nat) : list (list ascii) :=
  replicate k (replicate (Z.to_nat CHUNK_WIDTH) NUL).

(* ===================================================================== *)
(** * Vocabulary for the properties of the buffer *)
(* ===================================================================== *)

(** Samples whose rendering, separator included, takes at most ten
    characters: up to nine digits, or a sign and up to eight digits. *)
Definition short_sample (v : Z) : Prop := -99999999 <= v <= 999999999.

(** The text ["%d "] leaves for a run of samples. *)
Fixpoint render (vs : list Z) : list ascii :=
  match vs with
  | [] => []
  | v :: vs' => fmt_d_sp v ++ render vs'
  end.

(** The samples of [vs] a printing loop prints when it starts at offset
    [pos]: it goes on until it would begin a sample at or beyond [limit]. *)
Fixpoint printed (limit : Z) (vs : list Z) (pos : Z) : list Z :=
  match vs with
  | [] => []
  | v :: vs' =>
      if pos <? limit
      then v :: printed limit vs' (pos + Z.of_nat (length (fmt_d_sp v)))
      else []
  end.

(** The samples row [c] is meant to carry when [per] samples go to a row. *)
Definition group (b : SensorBuffer) (per : Z) (c : Z) : list Z :=
  take (Z.to_nat per) (drop (Z.to_nat (c * per)) (stored b)).

Definition row_ok (row : list ascii) : Prop := Z.of_nat (length row) = CHUNK_WIDTH.

(** The decoded rows of an outcome of [getDataAsChunks], first row first. *)
Definition decoded_rows (chunks : list (list ascii)) (chunkCount : Z) : list (list Z) :=
  map (fun c => decode (chunk_text chunks c)) (seq 0 (Z.to_nat chunkCount)).

(* ===================================================================== *)
(** * The outside world *)
(* ===================================================================== *)

(** MKRGSM's [GSM3_NetworkStatus_t], what [GSM::begin] and
    [GPRS::attachGPRS] return. *)
Inductive NetworkStatus : Type :=
| ERROR | IDLE | CONNECTING | GSM_READY | GPRS_READY
| TRANSPARENT_CONNECTED | GSM_OFF.

#[global] Instance NetworkStatus_eq_dec : EqDecision NetworkStatus.
Proof. solve_decision. Defined.

(** What the program does to the modem, the TLS client and the console. *)
Inductive event : Type :=
| Serial_print (s : string)
| GSM_begin (pin : string)
| GPRS_attachGPRS (apn login password : string)
| Client_connect (host : string) (port : Z)
| Client_print (s : string)
| Client_available
| Client_read
| Client_connected
| Client_stop.

(** The answers of the outside world. [env_millis k] is what the [k]-th
    call of [millis()] returns; the other fields give the answer to the
    [k]-th query put to the modem or the client, should it be of that
    kind. *)
Record Env : Type := mkEnv {
  env_millis : nat -> Z;                 (* unsigned long *)
  env_begin : nat -> NetworkStatus;
  env_attachGPRS : nat -> NetworkStatus;
  env_connect : nat -> Z;                (* int, non-zero on success *)
  env_available : nat -> Z;              (* int *)
  env_read : nat -> ascii;
  env_connected : nat -> Z               (* uint8_t *)
}.

Record World : Type := mkWorld {
  ticks : nat;          (* calls of millis() so far *)
  polls : nat;          (* queries put to modem and client so far *)
  log : list event      (* everything done so far, oldest first *)
}.

Definition IO (A : Type) : Type := World -> A * World.

#[global] Instance IO_ret : MRet IO := fun A a w => (a, w).

#[global] Instance IO_bind : MBind IO := fun A B k m w =>
  let '(a, w') := m w in k a w'.

Definition CRLF : string := String "013" (String "010" EmptyString).

(* Configuration constants of GSM_Utils.h. *)
Definition PINNUMBER : string := "".
Definition GPRS_APN : string := "zonginternet".
Definition GPRS_LOGIN : string := "".
Definition GPRS_PASSWORD : string := "".
Definition THINGSPEAK_SERVER : string := "api.thingspeak.com".
Definition THINGSPEAK_PORT : Z := 443.
Definition WRITE_API_KEY : string := "POWWNFLAIARHZL10".
Definition CONNECTION_TIMEOUT : Z := 30000.

(** The literal in the rate limit of [connect]. *)
Definition MIN_RETRY_INTERVAL : Z := 5000.

(* ===================================================================== *)
(** * GSMConnection *)
(* ===================================================================== *)

Record GSMConnection : Type := mkGSMConnection {
  isConnected : bool;
  lastConnectionAttempt : Z;   (* unsigned long *)
  connectionTimeout : Z        (* unsigned long *)
}.

(** [GSMConnection::GSMConnection] *)
Definition GSMConnection_new : GSMConnection :=
  {| isConnected := false; lastConnectionAttempt := 0; connectionTimeout := 0 |}.

Section Device.
Variable env : Env.

(** [millis()] *)
Definition millis : IO Z := fun w =>
  (env_millis env (ticks w),
   {| ticks := S (ticks w); polls := polls w; log := log w |}).

(** A call that is logged and answered by the outside world. *)
Definition query {A} (answer : Env -> nat -> A) (e : event) : IO A := fun w =>
  (answer env (polls w),
   {| ticks := ticks w; polls := S (polls w); log := log w ++ [e] |}).

(** A call that is only logged. *)
Definition emit (e : event) : IO unit := fun w =>
  (tt, {| ticks := ticks w; polls := polls w; log := log w ++ [e] |}).

Definition Serial_println (s : string) : IO unit :=
  emit (Serial_print (s +:+ CRLF)).

Definition client_print (s : string) : IO unit := emit (Client_print s).

Definition client_println (s : string) : IO unit :=
  emit (Client_print (s +:+ CRLF)).

(** [GSMConnection::connect]: the result and the object after the call. *)
Definition connect (c : GSMConnection) : IO (bool * GSMConnection) :=
  if isConnected c then mret (true, c)
  else
    currentTime ← millis;
    if wrap_ulong (currentTime - lastConnectionAttempt c) <? MIN_RETRY_INTERVAL
    then mret (false, c)
    else
      let c1 := {| isConnected := isConnected c;
                   lastConnectionAttempt := currentTime;
                   connectionTimeout := wrap_ulong (currentTime + CONNECTION_TIMEOUT) |} in
      Serial_println "Attempting GSM connection...";;
      st ← query env_begin (GSM_begin PINNUMBER);
      if decide (st = GSM_READY) then
        st' ← query env_attachGPRS (GPRS_attachGPRS GPRS_APN GPRS_LOGIN GPRS_PASSWORD);
        if decide (st' = GPRS_READY) then
          Serial_println "GSM connection established successfully";;
          mret (true, {| isConnected := true;
                         lastConnectionAttempt := lastConnectionAttempt c1;
                         connectionTimeout := connectionTimeout c1 |})
        else
          Serial_println "GSM connection failed - will retry later";;
          mret (false, c1)
      else
        Serial_println "GSM connection failed - will retry later";;
        mret (false, c1).

(** [GSMConnection::isReady]; [&&] does not call [millis()] when
    [isConnected] is false. *)
Definition isReady (c : GSMConnection) : IO bool :=
  if isConnected c then
    now ← millis; mret (now <? connectionTimeout c)
  else mret false.

(** [GSMConnection::disconnect] *)
Definition disconnect (c : GSMConnection) : IO GSMConnection :=
  if isConnected c then
    emit Client_stop;;
    Serial_println "GSM connection closed";;
    mret {| isConnected := false;
            lastConnectionAttempt := lastConnectionAttempt c;
            connectionTimeout := connectionTimeout c |}
  else mret c.

(** The first statement of [sendData]:
    [if (!isReady()) { if (!connect()) return false; }]; the boolean
    tells whether control goes on. *)
Definition ensure_ready (c : GSMConnection) : IO (bool * GSMConnection) :=
  ready ← isReady c;
  if (ready : bool) then mret (true, c) else connect c.

(** [GSMConnection::sendData(url, method)] *)
Definition sendData (url method : string) (c : GSMConnection)
  : IO (bool * GSMConnection) :=
  '(go_on, c1) ← ensure_ready c;
  if (go_on : bool) then
    connected ← query env_connect (Client_connect THINGSPEAK_SERVER THINGSPEAK_PORT);
    if negb (connected =? 0) then
      client_print method;;
      client_print " ";;
      client_print url;;
      client_println " HTTP/1.1";;
      client_print "Host: ";;
      client_println THINGSPEAK_SERVER;;
      client_println "Connection: close";;
      client_println "";;
      mret (true, c1)
    else
      Serial_println "Failed to connect to ThingSpeak server";;
      mret (false, c1)
  else mret (false, c1).

(** [GSMConnection::handleResponse]; it touches no field of the object. *)
Definition handleResponse : IO unit :=
  n ← query env_available Client_available;
  (if negb (n =? 0) then
     ch ← query env_read Client_read;
     emit (Serial_print (String ch EmptyString))
   else mret tt);;
  n' ← query env_available Client_available;
  if n' =? 0 then
    up ← query env_connected Client_connected;
    if up =? 0 then
      Serial_println (String "010" "Server disconnected");;
      emit Client_stop
    else mret tt
  else mret tt.

(** The [while] loop of [sendToThingSpeak]. [true]: the loop was left;
    [false]: it was still running after [fuel] turns. *)
Fixpoint response_loop (fuel : nat) (responseDelay : NonBlockingDelay)
    (gsm : GSMConnection) : IO bool :=
  match fuel with
  | O => mret false
  | S fuel' =>
      now ← millis;
      if isComplete now responseDelay then mret true
      else
        handleResponse;;
        ready ← isReady gsm;
        if negb ready then mret true
        else response_loop fuel' responseDelay gsm
  end.

(** [snprintf(url, sizeof(url), "/update?api_key=%s&field%d=%s", ...)]
    into [char url[300]]: at most 299 characters are kept. *)
Definition update_url (data : string) (field : Z) : string :=
  substring 0 299
    ("/update?api_key=" +:+ WRITE_API_KEY +:+ "&field"
     +:+ string_of_list_ascii (fmt_d field) +:+ "=" +:+ data).

(** [sendToThingSpeak]; [None] when the response loop has not ended
    within [fuel] turns. *)
Definition sendToThingSpeak (fuel : nat) (data : string) (field : Z)
  : IO (option bool) :=
  let gsm := GSMConnection_new in
  '(sent, gsm') ← sendData (update_url data field) "GET" gsm;
  if (sent : bool) then
    start ← millis;
    left ← response_loop fuel (NonBlockingDelay_new start 5000) gsm';
    mret (if (left : bool) then Some true else None)
  else mret (Some false).
End Device.

(* ===================================================================== *)
(** * Vocabulary for the properties of the connection manager *)
(* ===================================================================== *)

(** A world in which only the clock was read once more. *)
Definition after_tick (w : World) : World :=
  {| ticks := S (ticks w); polls := polls w; log := log w |}.

(** What every attach attempt begins with. *)
Definition attempt_events : list event :=
  [Serial_print ("Attempting GSM connection..." +:+ CRLF); GSM_begin PINNUMBER].

Definition quiet_env : Env :=
  {| env_millis := fun k => 40000 + 1000 * Z.of_nat k;
     env_begin := fun _ => GSM_READY;
     env_attachGPRS := fun _ => GPRS_READY;
     env_connect := fun _ => 1;
     env_available := fun _ => 0;
     env_read := fun _ => NUL;
     env_connected := fun _ => 1 |}.

Definition boot : World := {| ticks := 0; polls := 0; log := [] |}.

(** A modem that never attaches, and a clock read at 10000, 14000, 16000. *)
Definition dead_link_env : Env :=
  {| env_millis := fun k => nth k [10000; 14000; 16000] 20000;
     env_begin := fun _ => ERROR;
     env_attachGPRS := fun _ => ERROR;
     env_connect := fun _ => 0;
     env_available := fun _ => 0;
     env_read := fun _ => NUL;
     env_connected := fun _ => 0 |}.

(** The request [sendData] writes once the client is connected. *)
Definition request_events (url method : string) : list event :=
  [Client_print method;
   Client_print " ";
   Client_print url;
   Client_print (" HTTP/1.1" +:+ CRLF);
   Client_print "Host: ";
   Client_print (THINGSPEAK_SERVER +:+ CRLF);
   Client_print ("Connection: close" +:+ CRLF);
   Client_print ("" +:+ CRLF)].

(** Events that look at what the server sent back. *)
Definition reads_response (e : event) : bool :=
  match e with
  | Client_available | Client_read | Client_connected => true
  | _ => false
  end.

(** Two environments that differ at most in what the server sends back. *)
Definition same_uplink (env env' : Env) : Prop :=
  (forall k, env_millis env k = env_millis env' k) /\
  (forall k, env_begin env k = env_begin env' k) /\
  (forall k, env_attachGPRS env k = env_attachGPRS env' k) /\
  (forall k, env_connect env k = env_connect env' k).

(* ===================================================================== *)
(** * The URL builders *)
(* ===================================================================== *)

(* The remaining configuration constants of GSM_Utils.h. *)
Definition READ_API_KEY : string := "43F8VBLWVJP4Y2FN".
Definition CHANNEL_ID : string := "455094".

(** [%d] as a string. *)
Definition show_int (v : Z) : string := string_of_list_ascii (fmt_d v).

(** The text [snprintf(buffer, 200, ...)] leaves in [buffer]: the first 199
    characters of the formatted text. *)
Definition snprintf_200 (text : string) : string := substring 0 199 text.

Definition write_url_text (field value : Z) : string :=
  "/update?api_key=" +:+ WRITE_API_KEY +:+ "&field" +:+ show_int field
  +:+ "=" +:+ show_int value.

Definition read_url_text (field : Z) (results : string) : string :=
  "/channels/" +:+ CHANNEL_ID +:+ "/fields/" +:+ show_int field
  +:+ "/last.json?api_key=" +:+ READ_API_KEY +:+ "&results=" +:+ results.

(** [buildThingSpeakURL]: what it leaves in [buffer]. In the read form the
    format string ends in the literal [results=2]. *)
Definition buildThingSpeakURL (field value : Z) (isWrite : bool) : string :=
  if isWrite then snprintf_200 (write_url_text field value)
  else snprintf_200 (read_url_text field "2").

(** [buildThingSpeakReadURL] *)
Definition buildThingSpeakReadURL (field results : Z) : string :=
  snprintf_200 (read_url_text field (show_int results)).

(** The text [sendToThingSpeak] formats into [url], before it is cut to
    the 299 characters the array has room for. *)
Definition update_url_text (data : string) (field : Z) : string :=
  "/update?api_key=" +:+ WRITE_API_KEY +:+ "&field"
  +:+ string_of_list_ascii (fmt_d field) +:+ "=" +:+ data.

(* ===================================================================== *)
(** * More vocabulary for the connection manager *)
(* ===================================================================== *)

(** Events that reach the modem. *)
Definition touches_modem (e : event) : bool :=
  match e with
  | GSM_begin _ | GPRS_attachGPRS _ _ _ => true
  | _ => false
  end.

Definition is_read (e : event) : bool :=
  match e with Client_read => true | _ => false end.

Definition is_stop (e : event) : bool :=
  match e with Client_stop => true | _ => false end.

(** What [sendData] logs once readiness is established: the client's
    [connect], then the request or the failure message. *)
Definition transport_events (url method : string) (answer : Z) : list event :=
  Client_connect THINGSPEAK_SERVER THINGSPEAK_PORT
  :: (if answer =? 0
      then [Serial_print ("Failed to connect to ThingSpeak server" +:+ CRLF)]
      else request_events url method).

(** A clock that reads [2^32 - 10000], then [2^32 - 9000]; the modem
    attaches. *)
Definition late_env : Env :=
  {| env_millis := fun k => nth k [4294957296; 4294958296] 4294959296;
     env_begin := fun _ => GSM_READY;
     env_attachGPRS := fun _ => GPRS_READY;
     env_connect := fun _ => 1;
     env_available := fun _ => 0;
     env_read := fun _ => NUL;
     env_connected := fun _ => 1 |}.

(** A clock that reads 1200 at boot. *)
Definition early_env : Env :=
  {| env_millis := fun k => 1200 + Z.of_nat k;
     env_begin := fun _ => GSM_READY;
     env_attachGPRS := fun _ => GPRS_READY;
     env_connect := fun _ => 1;
     env_available := fun _ => 0;
     env_read := fun _ => NUL;
     env_connected := fun _ => 1 |}.

(* ===================================================================== *)
(** * waitForResponse *)
(* ===================================================================== *)

(** What the outside world answers during one turn of the loop of
    [waitForResponse]: the clock read by [delay.isComplete()], the answer
    of [serial.available()], and the byte [serial.read()] hands over if it
    is called. *)
Record Turn : Type := mkTurn {
  turn_millis : Z;       (* unsigned long *)
  turn_available : Z;    (* int *)
  turn_read : ascii
}.

(** The bytes a run of turns has on offer, in order. *)
Fixpoint offered (turns : list Turn) : string :=
  match turns with
  | [] => EmptyString
  | t :: turns' =>
      if turn_available t =? 0 then offered turns'
      else String (turn_read t) (offered turns')
  end.

Section SerialPort.
(** Arduino's [String::indexOf(const String&)], which is not part of
    these sources: the index of the first occurrence, negative when
    there is none. *)
Variable indexOf : string -> string -> Z.

(** The [while] loop of [waitForResponse]: the result, [None] while the
    loop is still running when the turns are used up, and the text
    gathered in [response]. *)
Fixpoint wait_loop (delay : NonBlockingDelay) (expected response : string)
    (turns : list Turn) : option bool * string :=
  match turns with
  | [] => (None, response)
  | t :: turns' =>
      if isComplete (turn_millis t) delay then (Some false, response)
      else if negb (turn_available t =? 0) then
        let response' := response +:+ String (turn_read t) EmptyString in
        if 0 <=? indexOf response' expected then (Some true, response')
        else wait_loop delay expected response' turns'
      else wait_loop delay expected response turns'
  end.

(** [waitForResponse]; [start] is the clock read by the constructor of
    [delay]. *)
Definition waitForResponse (start : Z) (expected : string) (timeout : Z)
    (turns : list Turn) : option bool * string :=
  wait_loop (NonBlockingDelay_new start timeout) expected EmptyString turns.
End SerialPort.

(** A serial line that hands over [OK] one byte a turn, 10 ms apart. *)
Definition ok_turns : list Turn :=
  [ {| turn_millis := 1010; turn_available := 0; turn_read := NUL |};
    {| turn_millis := 1020; turn_available := 2; turn_read := "O"%char |};
    {| turn_millis := 1030; turn_available := 1; turn_read := "K"%char |};
    {| turn_millis := 1040; turn_available := 0; turn_read := NUL |} ].

(** A stand-in for [String::indexOf] that looks for [OK] at the front. *)
Definition ok_at_front (response expected : string) : Z :=
  if String.prefix expected response then 0 else -1.


(* ##################################################################### *)
(** * Part II: what holds of it *)
(* ##################################################################### *)

(* ===================================================================== *)
(** * Tactics for the device monad *)
(* ===================================================================== *)

Ltac io_unfold :=
  unfold sendData, ensure_ready, isReady, connect, disconnect, handleResponse,
    Serial_println, client_print, client_println, emit, query, millis,
    mbind, IO_bind, mret, IO_ret in *; simpl in *.

Ltac io_case :=
  match goal with
  | |- context [if ?b then _ else _] => destruct b eqn:?; simpl in *
  end.

(* ===================================================================== *)
(** * Facts about the decimal rendering *)
(* ===================================================================== *)

Lemma wrap_ulong_in_range (z : Z) : in_ulong (wrap_ulong z).
Proof. unfold in_ulong, wrap_ulong, ULONG_MODULUS. apply Z.mod_pos_bound. lia. Qed.

Lemma digit_cases (d : Z) :
  0 <= d < 10 ->
  d = 0 \/ d = 1 \/ d = 2 \/ d = 3 \/ d = 4 \/ d = 5 \/ d = 6 \/ d = 7 \/ d = 8 \/ d = 9.
Proof. lia. Qed.

Lemma digit_char_is_digit (d : Z) : 0 <= d < 10 -> is_digit (digit_char d) = true.
Proof.
  intros H. destruct (digit_cases d H) as [->|[->|[->|[->|[->|[->|[->|[->|[->| ->]]]]]]]]];
    reflexivity.
Qed.

Lemma digit_val_char (d : Z) : 0 <= d < 10 -> digit_val (digit_char d) = d.
Proof.
  intros H. destruct (digit_cases d H) as [->|[->|[->|[->|[->|[->|[->|[->|[->| ->]]]]]]]]];
    reflexivity.
Qed.

Lemma is_digit_code (c : ascii) :
  is_digit c = true -> 48 <= Z.of_N (N_of_ascii c) <= 57.
Proof. unfold is_digit. intros H. apply andb_true_iff in H. lia. Qed.

Lemma is_digit_not_space (c : ascii) : is_digit c = true -> Ascii.eqb c SPACE = false.
Proof.
  intros H. apply is_digit_code in H. apply Ascii.eqb_neq. intros ->.
  cbn in H. lia.
Qed.

Lemma is_digit_not_nul (c : ascii) : is_digit c = true -> Ascii.eqb c NUL = false.
Proof.
  intros H. apply is_digit_code in H. apply Ascii.eqb_neq. intros ->.
  cbn in H. lia.
Qed.

Lemma is_digit_not_minus (c : ascii) : is_digit c = true -> Ascii.eqb c MINUS = false.
Proof.
  intros H. apply is_digit_code in H. apply Ascii.eqb_neq. intros ->.
  cbn in H. lia.
Qed.

Lemma digits_aux_all_digits (fuel : nat) : forall n acc,
  0 <= n ->
  Forall (fun c => is_digit c = true) acc ->
  Forall (fun c => is_digit c = true) (digits_aux fuel n acc).
Proof.
  induction fuel as [|fuel IH]; intros n acc Hn Hacc; simpl; [done|].
  assert (Hd : is_digit (digit_char (n mod 10)) = true)
    by (apply digit_char_is_digit; apply Z.mod_pos_bound; lia).
  destruct (n / 10 =? 0).
  - by constructor.
  - apply IH; [apply Z.div_pos; lia | by constructor].
Qed.

(** With enough fuel the digits read back as the number. *)
Lemma digits_aux_value (fuel : nat) : forall n acc,
  0 <= n < 2 ^ Z.of_nat fuel ->
  foldl (fun a c => a * 10 + digit_val c) 0 (digits_aux fuel n acc)
  = foldl (fun a c => a * 10 + digit_val c) n acc.
Proof.
  induction fuel as [|fuel IH]; intros n acc Hn.
  - simpl in *. replace n with 0 by lia. done.
  - simpl digits_aux.
    assert (Hm : 0 <= n mod 10 < 10) by (apply Z.mod_pos_bound; lia).
    pose proof (Z.div_mod n 10 ltac:(lia)) as Hdm.
    destruct (n / 10 =? 0) eqn:Hq.
    + apply Z.eqb_eq in Hq. simpl. rewrite digit_val_char by done.
      f_equal. lia.
    + rewrite IH.
      * simpl. rewrite digit_val_char by done. f_equal. lia.
      * split; [apply Z.div_pos; lia|].
        rewrite Nat2Z.inj_succ, Z.pow_succ_r in Hn by lia.
        apply Z.div_lt_upper_bound; lia.
Qed.

Lemma digits_aux_length_ge (fuel : nat) : forall n acc,
  (length acc <= length (digits_aux fuel n acc))%nat.
Proof.
  induction fuel as [|fuel IH]; intros n acc; simpl; [lia|].
  destruct (n / 10 =? 0); simpl; [lia|].
  specialize (IH (n / 10) (digit_char (n mod 10) :: acc)). simpl in IH. lia.
Qed.

Lemma digits_aux_length_le (fuel : nat) : forall n acc (k : nat),
  0 <= n < 10 ^ Z.of_nat (S k) ->
  (length (digits_aux fuel n acc) <= length acc + S k)%nat.
Proof.
  induction fuel as [|fuel IH]; intros n acc k Hn; simpl digits_aux; [lia|].
  destruct (n / 10 =? 0) eqn:Hq; [simpl; lia|].
  apply Z.eqb_neq in Hq.
  destruct k as [|k].
  - exfalso. apply Hq. apply Z.div_small. simpl in Hn. lia.
  - specialize (IH (n / 10) (digit_char (n mod 10) :: acc) k).
    simpl length in IH. etrans; [apply IH|lia].
    split; [apply Z.div_pos; lia|].
    apply Z.div_lt_upper_bound; [lia|].
    rewrite (Nat2Z.inj_succ (S k)), Z.pow_succ_r in Hn by lia. lia.
Qed.

Lemma log2_fuel (n : Z) : 0 <= n -> n < 2 ^ Z.of_nat (S (Z.to_nat (Z.log2 n))).
Proof.
  intros Hn. rewrite Nat2Z.inj_succ, Z2Nat.id by apply Z.log2_nonneg.
  destruct (Z.eq_dec n 0) as [->|Hne]; [done|].
  apply Z.log2_spec. lia.
Qed.

Lemma digits_all_digits (n : Z) :
  0 <= n -> Forall (fun c => is_digit c = true) (digits n).
Proof. intros Hn. by apply digits_aux_all_digits. Qed.

Lemma digits_value (n : Z) : 0 <= n -> parse_digits (digits n) = n.
Proof.
  intros Hn. unfold parse_digits, digits. rewrite digits_aux_value; [done|].
  split; [done|]. by apply log2_fuel.
Qed.

Lemma digits_nonempty (n : Z) : digits n <> [].
Proof.
  unfold digits. simpl. destruct (n / 10 =? 0); [done|].
  intros H. pose proof (digits_aux_length_ge (Z.to_nat (Z.log2 n)) (n / 10)
                          [digit_char (n mod 10)]) as Hl.
  rewrite H in Hl. simpl in Hl. lia.
Qed.

Lemma digits_length_le (n : Z) (k : nat) :
  0 <= n < 10 ^ Z.of_nat (S k) -> (length (digits n) <= S k)%nat.
Proof. intros Hn. apply (digits_aux_length_le _ n [] k Hn). Qed.

Lemma fmt_d_value (v : Z) : parse_int (fmt_d v) = v.
Proof.
  unfold fmt_d. destruct (v <? 0) eqn:Hv.
  - apply Z.ltb_lt in Hv. simpl. rewrite digits_value by lia. lia.
  - apply Z.ltb_ge in Hv.
    pose proof (digits_all_digits v Hv) as Hd.
    pose proof (digits_nonempty v) as Hne.
    pose proof (digits_value v Hv) as Hval.
    destruct (digits v) as [|c ds]; [done|].
    apply Forall_cons_1 in Hd as [Hc _].
    unfold parse_int. by rewrite is_digit_not_minus.
Qed.

Lemma fmt_d_no_space (v : Z) : Forall (fun c => Ascii.eqb c SPACE = false) (fmt_d v).
Proof.
  assert (H : forall n, 0 <= n ->
            Forall (fun c => Ascii.eqb c SPACE = false) (digits n)).
  { intros n Hn. apply Forall_forall. intros c Hc. apply is_digit_not_space.
    revert c Hc. apply Forall_forall. by apply digits_all_digits. }
  unfold fmt_d. destruct (v <? 0) eqn:Hv.
  - apply Z.ltb_lt in Hv. constructor; [done|]. apply H. lia.
  - apply Z.ltb_ge in Hv. by apply H.
Qed.

Lemma fmt_d_sp_no_nul (v : Z) : Forall (fun c => Ascii.eqb c NUL = false) (fmt_d_sp v).
Proof.
  assert (H : forall n, 0 <= n ->
            Forall (fun c => Ascii.eqb c NUL = false) (digits n)).
  { intros n Hn. apply Forall_forall. intros c Hc. apply is_digit_not_nul.
    revert c Hc. apply Forall_forall. by apply digits_all_digits. }
  unfold fmt_d_sp, fmt_d. apply Forall_app. split; [|by constructor].
  destruct (v <? 0) eqn:Hv.
  - apply Z.ltb_lt in Hv. constructor; [done|]. apply H. lia.
  - apply Z.ltb_ge in Hv. by apply H.
Qed.

Lemma fmt_d_nonempty (v : Z) : fmt_d v <> [].
Proof. unfold fmt_d. destruct (v <? 0); [done|apply digits_nonempty]. Qed.

Lemma fmt_d_sp_length_pos (v : Z) : (0 < length (fmt_d_sp v))%nat.
Proof. unfold fmt_d_sp. rewrite length_app. simpl. lia. Qed.

Lemma short_sample_length (v : Z) :
  short_sample v -> (length (fmt_d_sp v) <= 10)%nat.
Proof.
  unfold short_sample, fmt_d_sp, fmt_d. intros Hv. rewrite length_app. simpl.
  destruct (v <? 0) eqn:Hs.
  - apply Z.ltb_lt in Hs. simpl.
    pose proof (digits_length_le (- v) 7 ltac:(simpl; lia)). lia.
  - apply Z.ltb_ge in Hs.
    pose proof (digits_length_le v 8 ltac:(simpl; lia)). lia.
Qed.

(** Every [int] renders in at most twelve characters. *)
Lemma int_length (v : Z) : in_int v -> (length (fmt_d_sp v) <= 12)%nat.
Proof.
  unfold in_int, INT_MIN, INT_MAX, fmt_d_sp, fmt_d. intros Hv.
  rewrite length_app. simpl.
  destruct (v <? 0) eqn:Hs.
  - apply Z.ltb_lt in Hs. simpl.
    pose proof (digits_length_le (- v) 9 ltac:(simpl; lia)). lia.
  - apply Z.ltb_ge in Hs.
    pose proof (digits_length_le v 9 ltac:(simpl; lia)). lia.
Qed.

Lemma render_app (us vs : list Z) : render (us ++ vs) = render us ++ render vs.
Proof. induction us as [|u us IH]; simpl; [done|]. by rewrite IH, app_assoc. Qed.

Lemma render_no_nul (vs : list Z) :
  Forall (fun c => Ascii.eqb c NUL = false) (render vs).
Proof.
  induction vs as [|v vs IH]; simpl; [constructor|].
  apply Forall_app. split; [apply fmt_d_sp_no_nul|done].
Qed.

Lemma fields_token (tok : list ascii) : forall cur rest,
  Forall (fun c => Ascii.eqb c SPACE = false) tok ->
  cur ++ tok <> [] ->
  fields cur (tok ++ SPACE :: rest) = (rev cur ++ tok) :: fields [] rest.
Proof.
  induction tok as [|c tok IH]; intros cur rest Hns Hne.
  - rewrite app_nil_r in *. simpl. destruct cur; done.
  - apply Forall_cons_1 in Hns as [Hc Hns]. simpl. rewrite Hc.
    rewrite IH; [|done|done].
    simpl. by rewrite <- app_assoc.
Qed.

(** Decoding undoes the rendering. *)
Lemma decode_render (vs : list Z) : decode (render vs) = vs.
Proof.
  unfold decode. induction vs as [|v vs IH]; simpl; [done|].
  unfold fmt_d_sp. rewrite <- app_assoc. simpl.
  rewrite fields_token.
  - simpl. by rewrite fmt_d_value, IH.
  - apply fmt_d_no_space.
  - simpl. apply fmt_d_nonempty.
Qed.

Lemma cstring_app_nul (text rest : list ascii) :
  Forall (fun c => Ascii.eqb c NUL = false) text ->
  cstring (text ++ NUL :: rest) = text.
Proof.
  induction text as [|c text IH]; intros H; simpl; [done|].
  apply Forall_cons_1 in H as [Hc H]. rewrite Hc. by rewrite IH.
Qed.

(* ===================================================================== *)
(** * Stores into character arrays *)
(* ===================================================================== *)

Lemma store_in_bounds (arr : list ascii) (i : Z) (c : ascii) :
  0 <= i < Z.of_nat (length arr) ->
  store arr i c = Done (<[Z.to_nat i := c]> arr).
Proof.
  intros H. unfold store.
  destruct (0 <=? i) eqn:H1; [|lia]. destruct (i <? Z.of_nat (length arr)) eqn:H2; [done|lia].
Qed.


Lemma store_all_in_bounds (cs : list ascii) : forall arr i,
  0 <= i -> i + Z.of_nat (length cs) <= Z.of_nat (length arr) ->
  store_all arr i cs
  = Done (take (Z.to_nat i) arr ++ cs ++ drop (Z.to_nat i + length cs) arr).
Proof.
  induction cs as [|c cs IH]; intros arr i Hi Hlen; simpl in *.
  - by rewrite Nat.add_0_r, take_drop.
  - rewrite store_in_bounds by lia. simpl.
    rewrite IH; [|lia|rewrite length_insert; lia].
    f_equal.
    replace (Z.to_nat (i + 1)) with (S (Z.to_nat i)) by lia.
    rewrite (take_S_r _ _ c) by (apply list_lookup_insert_eq; lia).
    rewrite take_insert_ge by lia.
    rewrite drop_insert_lt by lia.
    rewrite <- app_assoc. simpl.
    by replace (Z.to_nat i + S (length cs))%nat with (S (Z.to_nat i + length cs)) by lia.
Qed.

(* ===================================================================== *)
(** * What a printing loop leaves in its array *)
(* ===================================================================== *)

Lemma snprintf_fits (arr : list ascii) (pos size v : Z) :
  0 <= pos ->
  Z.of_nat (length (fmt_d_sp v)) < size ->
  pos + size <= Z.of_nat (length arr) ->
  snprintf_d_sp arr pos size v
  = Done (take (Z.to_nat pos) arr ++ fmt_d_sp v
            ++ NUL :: drop (Z.to_nat pos + length (fmt_d_sp v) + 1) arr,
          Z.of_nat (length (fmt_d_sp v))).
Proof.
  intros Hpos Hlen Hroom. unfold snprintf_d_sp.
  destruct (size <=? 0) eqn:Hs; [lia|].
  rewrite take_ge by lia.
  rewrite store_all_in_bounds; [|lia|rewrite length_app; simpl; lia].
  simpl. rewrite <- app_assoc, length_app. simpl.
  by rewrite Nat.add_assoc.
Qed.

Lemma sample_at_lookup (b : SensorBuffer) (i : Z) (v : Z) :
  0 <= i -> samples b !! Z.to_nat i = Some v -> sample_at b i = Done v.
Proof.
  intros Hi Hv. unfold sample_at. destruct (0 <=? i) eqn:H; [|lia]. by rewrite Hv.
Qed.

Lemma take_drop_S {A} (l : list A) (i n : nat) (x : A) :
  l !! i = Some x -> take (S n) (drop i l) = x :: take n (drop (S i) l).
Proof.
  intros Hx. rewrite (drop_S l x i Hx). done.
Qed.

Lemma print_loop_spec (b : SensorBuffer) (limit cap : Z) : forall n i arr pos,
  Z.of_nat (length arr) = cap ->
  limit + 10 <= cap ->
  0 <= pos -> 0 <= i ->
  (0 < n -> Z.to_nat i + n <= length (samples b))%nat ->
  Forall (fun v => (length (fmt_d_sp v) <= 10)%nat)
         (take n (drop (Z.to_nat i) (samples b))) ->
  let ws := printed limit (take n (drop (Z.to_nat i) (samples b))) pos in
  let pos' := pos + Z.of_nat (length (render ws)) in
  exists arr',
    print_loop b limit cap n i arr pos = Done (arr', pos') /\
    length arr' = length arr /\
    take (Z.to_nat pos') arr' = take (Z.to_nat pos) arr ++ render ws /\
    (ws = [] -> arr' = arr) /\
    (ws <> [] -> pos' < cap /\ arr' !! Z.to_nat pos' = Some NUL).
Proof.
  induction n as [|n IH]; intros i arr pos Hcap Hlim Hpos Hi Hn Hshort.
  - simpl. exists arr. rewrite Z.add_0_r, app_nil_r. done.
  - specialize (Hn ltac:(lia)).
    destruct (lookup_lt_is_Some_2 (samples b) (Z.to_nat i) ltac:(lia)) as [v Hv].
    rewrite (take_drop_S _ _ _ _ Hv) in *.
    apply Forall_cons_1 in Hshort as [Hv10 Hshort].
    pose proof (fmt_d_sp_length_pos v) as Hv0.
    simpl. destruct (pos <? limit) eqn:Hguard.
    2:{ simpl. exists arr. rewrite Z.add_0_r, app_nil_r. done. }
    apply Z.ltb_lt in Hguard.
    rewrite (sample_at_lookup b i v Hi Hv). simpl.
    rewrite snprintf_fits by lia. simpl.
    destruct (0 <? Z.of_nat (length (fmt_d_sp v))) eqn:Hw; [|lia].
    set (text := fmt_d_sp v) in *.
    set (arr1 := take (Z.to_nat pos) arr ++ text
                   ++ NUL :: drop (Z.to_nat pos + length text + 1) arr).
    set (pos1 := pos + Z.of_nat (length text)).
    assert (Hlen1 : length arr1 = length arr).
    { unfold arr1. rewrite !length_app. simpl.
      rewrite length_take, length_drop. lia. }
    assert (Htake1 : take (Z.to_nat pos1) arr1 = take (Z.to_nat pos) arr ++ text).
    { unfold arr1. rewrite app_assoc. apply take_app_length'.
      rewrite length_app, length_take. lia. }
    assert (Hnul1 : arr1 !! Z.to_nat pos1 = Some NUL).
    { unfold arr1. rewrite app_assoc.
      rewrite lookup_app_r by (rewrite length_app, length_take; lia).
      replace (Z.to_nat pos1 - length (take (Z.to_nat pos) arr ++ text))%nat with 0%nat;
        [done|]. rewrite length_app, length_take. lia. }
    assert (Hi1 : Z.to_nat (i + 1) = S (Z.to_nat i)) by lia.
    specialize (IH (i + 1) arr1 pos1). rewrite Hi1 in IH.
    destruct IH as (arr' & Hrun & Hlen' & Htake' & Hnil & Hcons);
      [lia|done|lia|lia|lia|done|].
    set (ws' := printed limit (take n (drop (S (Z.to_nat i)) (samples b))) pos1) in *.
    exists arr'. rewrite length_app, Nat2Z.inj_add, Z.add_assoc.
    split; [done|]. split; [lia|]. split.
    { fold pos1. rewrite Htake', Htake1. by rewrite <- app_assoc. }
    split; [done|]. intros _.
    destruct ws' as [|w ws''] eqn:Hws'.
    + fold pos1. rewrite (Hnil eq_refl). simpl. rewrite Z.add_0_r. split; [unfold pos1; lia|done].
    + fold pos1. apply Hcons. done.
Qed.

Lemma printed_prefix (limit : Z) (vs : list Z) : forall pos,
  exists m, (m <= length vs)%nat /\ printed limit vs pos = take m vs.
Proof.
  induction vs as [|v vs IH]; intros pos; simpl.
  - by exists 0%nat.
  - destruct (pos <? limit).
    + destruct (IH (pos + Z.of_nat (length (fmt_d_sp v)))) as (m & Hm & ->).
      exists (S m). split; [lia|done].
    + exists 0%nat. split; [lia|done].
Qed.

Lemma printed_nonempty (limit : Z) (vs : list Z) (pos : Z) :
  vs <> [] -> pos < limit -> printed limit vs pos <> [].
Proof.
  destruct vs as [|v vs]; [done|]. intros _ H. simpl.
  destruct (pos <? limit) eqn:Hg; [done|lia].
Qed.

Lemma render_nonempty (ws : list Z) : ws <> [] -> (0 < length (render ws))%nat.
Proof.
  destruct ws as [|w ws]; [done|]. intros _. simpl. rewrite length_app.
  pose proof (fmt_d_sp_length_pos w). lia.
Qed.

(* ===================================================================== *)
(** * getDataAsChunks *)
(* ===================================================================== *)

(** The index arithmetic of [getDataAsChunks] stays within [int]: for a
    count within the capacity and a row number below [maxChunks], neither
    [chunk * samplesPerChunk] nor [startSample + samplesPerChunk]
    overflows. *)
Lemma chunk_bounds_in_int (count k chunk : Z) :
  0 <= count <= MAX_SAMPLES -> 1 <= k <= INT_MAX -> 0 <= chunk < k ->
  let per := Z.max 1 (count / k) in
  in_int (chunk * per) /\ in_int (chunk * per + per).
Proof.
  intros Hn Hk Hc per. unfold MAX_SAMPLES, in_int, INT_MIN, INT_MAX in *.
  assert (Hq : 0 <= count / k) by (apply Z.div_pos; lia).
  assert (Hmul : k * (count / k) <= count) by (apply Z.mul_div_le; lia).
  destruct (Z.eq_dec (count / k) 0) as [H0|Hne].
  - unfold per. rewrite H0. simpl. lia.
  - assert (per = count / k) as -> by (unfold per; lia).
    assert (chunk * (count / k) <= k * (count / k)) by nia.
    assert (count / k <= count) by nia. lia.
Qed.

(** The range [startSample .. endSample - 1] of the array is that group. *)
Lemma slice_is_group (b : SensorBuffer) (per c : Z) :
  0 <= sampleCount b -> 0 <= c -> 1 <= per ->
  take (Z.to_nat (Z.min (c * per + per) (sampleCount b) - c * per))
       (drop (Z.to_nat (c * per)) (samples b))
  = group b per c.
Proof.
  intros Hn Hc Hper. unfold group, stored.
  assert (0 <= c * per) by lia.
  destruct (Z.le_gt_cases (sampleCount b) (c * per)) as [Hle|Hgt].
  - replace (Z.to_nat (Z.min (c * per + per) (sampleCount b) - c * per)) with 0%nat by lia.
    rewrite (drop_ge (take _ _)) by (rewrite length_take; lia).
    by rewrite take_nil.
  - replace (Z.to_nat (sampleCount b))
      with (Z.to_nat (c * per) + Z.to_nat (sampleCount b - c * per))%nat by lia.
    rewrite <- take_drop_commute, take_take. f_equal. lia.
Qed.

Lemma group_empty_iff (b : SensorBuffer) (per c : Z) :
  0 <= sampleCount b -> (Z.to_nat (sampleCount b) <= length (samples b))%nat ->
  0 <= c -> 1 <= per ->
  group b per c = [] <-> sampleCount b <= c * per.
Proof.
  intros Hn Hlen Hc Hper. unfold group, stored.
  assert (Hcp : 0 <= c * per) by lia. split.
  - intros H. apply (f_equal length) in H.
    rewrite length_take, length_drop, length_take in H. simpl in H. lia.
  - intros H. rewrite drop_ge by (rewrite length_take; lia). by rewrite take_nil.
Qed.


(** The groups of the first [N] rows, one after the other, are the first
    [N * per] samples. *)
Lemma groups_concat (b : SensorBuffer) (per : Z) (N : nat) :
  1 <= per ->
  concat (map (fun j => group b per (Z.of_nat j)) (seq 0 N))
  = take (N * Z.to_nat per) (stored b).
Proof.
  intros Hper. induction N as [|N IH]; [done|].
  rewrite seq_S, map_app, concat_app, IH. simpl. rewrite app_nil_r.
  unfold group.
  replace (Z.to_nat (Z.of_nat N * per)) with (N * Z.to_nat per)%nat by lia.
  rewrite take_take_drop. f_equal. lia.
Qed.

Lemma chunk_body_spec (b : SensorBuffer) (per chunk : Z)
    (chunks : list (list ascii)) (chunkCount : Z) (row : list ascii) :
  0 <= sampleCount b -> (Z.to_nat (sampleCount b) <= length (samples b))%nat ->
  Forall short_sample (stored b) ->
  1 <= per -> 0 <= chunk ->
  chunks !! Z.to_nat chunk = Some row -> row_ok row ->
  (group b per chunk = [] /\
   chunk_body b per chunk chunks chunkCount = Done (chunks, chunkCount))
  \/
  (group b per chunk <> [] /\
   exists row',
     chunk_body b per chunk chunks chunkCount
     = Done (<[Z.to_nat chunk := row']> chunks, chunkCount + 1) /\
     row_ok row' /\
     cstring row' = render (printed CHUNK_GUARD (group b per chunk) 0)).
Proof.
  intros Hn Hlen Hshort Hper Hchunk Hrow Hok.
  assert (Hstart : 0 <= chunk * per) by lia.
  unfold chunk_body. rewrite Hrow. simpl default.
  pose proof (slice_is_group b per chunk Hn Hchunk Hper) as Hslice.
  destruct (print_loop_spec b CHUNK_GUARD CHUNK_WIDTH
              (Z.to_nat (Z.min (chunk * per + per) (sampleCount b) - chunk * per))
              (chunk * per) row 0)
    as (row' & Hrun & Hlen' & Htake & Hnil & Hcons).
  - done.
  - unfold CHUNK_GUARD, CHUNK_WIDTH. lia.
  - lia.
  - lia.
  - lia.
  - rewrite Hslice. apply Forall_forall. intros v Hv. apply short_sample_length.
    revert v Hv. apply Forall_forall. unfold group.
    apply Forall_take, Forall_drop, Hshort.
  - rewrite Hslice in *. rewrite Hrun. clear Hrun.
    remember (printed CHUNK_GUARD (group b per chunk) 0) as ws eqn:Hwsdef.
    rewrite Z.add_0_l in *. simpl.
    destruct (decide (group b per chunk = [])) as [Hg|Hg].
    + left. split; [done|]. rewrite Hg in Hwsdef. simpl in Hwsdef. subst ws. simpl.
      rewrite (Hnil eq_refl). by rewrite list_insert_id.
    + right. split; [done|].
      assert (Hws : ws <> [])
        by (subst ws; apply printed_nonempty; [done|unfold CHUNK_GUARD; lia]).
      destruct (Hcons Hws) as [Hlt Hnul].
      pose proof (render_nonempty ws Hws) as Hpos.
      destruct (0 <? Z.of_nat (length (render ws))) eqn:Hp; [|lia].
      rewrite store_in_bounds by (unfold row_ok in Hok; lia). simpl.
      rewrite (list_insert_id row' _ NUL Hnul).
      exists row'. split; [done|]. split; [unfold row_ok in *; lia|].
      rewrite <- (take_drop (Z.to_nat (Z.of_nat (length (render ws)))) row').
      rewrite Htake. simpl.
      rewrite (drop_S row' NUL _ Hnul).
      apply cstring_app_nul, render_no_nul.
Qed.

Section ChunkLoop.
Variable b : SensorBuffer.
Variables maxChunks per : Z.
Hypothesis count_nonneg : 0 <= sampleCount b.
Hypothesis count_in_array : (Z.to_nat (sampleCount b) <= length (samples b))%nat.
Hypothesis samples_short : Forall short_sample (stored b).
Hypothesis per_pos : 1 <= per.

(** Once the groups have run out the remaining turns change nothing. *)
Lemma chunk_loop_idle : forall n chunk chunks chunkCount,
  0 <= chunk -> sampleCount b <= chunk * per ->
  (Z.to_nat chunk + n <= length chunks)%nat ->
  Forall row_ok chunks ->
  chunk_loop b maxChunks per n chunk chunks chunkCount = Done (chunks, chunkCount).
Proof.
  induction n as [|n IH]; intros chunk chunks chunkCount Hc Hout Hrows Hok; [done|].
  simpl. destruct (chunkCount <? maxChunks); [|done].
  destruct (lookup_lt_is_Some_2 chunks (Z.to_nat chunk) ltac:(lia)) as [row Hrow].
  assert (Hrok : row_ok row).
  { by eapply Forall_lookup_1. }
  destruct (chunk_body_spec b per chunk chunks chunkCount row)
    as [[_ ->]|[Hne _]]; try done.
  - simpl. apply IH; [lia|lia|lia|done].
  - exfalso. apply Hne. apply group_empty_iff; done.
Qed.

(** While every row so far was written, [chunkCount] equals [chunk]. *)
Lemma chunk_loop_spec : forall n chunk chunks,
  0 <= chunk ->
  (Z.to_nat chunk + n <= length chunks)%nat ->
  chunk + Z.of_nat n <= maxChunks ->
  Forall row_ok chunks ->
  exists chunks' N,
    chunk_loop b maxChunks per n chunk chunks chunk = Done (chunks', N) /\
    chunk <= N <= chunk + Z.of_nat n /\
    length chunks' = length chunks /\
    (forall j, (j < Z.to_nat chunk)%nat -> chunks' !! j = chunks !! j) /\
    (forall j : nat, chunk <= Z.of_nat j < N ->
       group b per (Z.of_nat j) <> [] /\
       chunk_text chunks' j
       = render (printed CHUNK_GUARD (group b per (Z.of_nat j)) 0)) /\
    (N < chunk + Z.of_nat n -> sampleCount b <= N * per).
Proof.
  induction n as [|n IH]; intros chunk chunks Hc Hrows Hmax Hok.
  - exists chunks, chunk. simpl. repeat split; try done; lia.
  - simpl. destruct (chunk <? maxChunks) eqn:Hguard; [|lia].
    destruct (lookup_lt_is_Some_2 chunks (Z.to_nat chunk) ltac:(lia)) as [row Hrow].
    assert (Hrok : row_ok row).
    { by eapply Forall_lookup_1. }
    destruct (chunk_body_spec b per chunk chunks chunk row)
      as [[Hempty ->]|(Hne & row' & -> & Hrok' & Htext)]; try done.
    + simpl. apply group_empty_iff in Hempty; try done.
      rewrite chunk_loop_idle; [|lia|lia|lia|done].
      exists chunks, chunk. repeat split; try done; lia.
    + simpl.
      destruct (IH (chunk + 1) (<[Z.to_nat chunk := row']> chunks))
        as (chunks' & N & Hrun & HN & Hlen & Hbelow & Hrowsdone & Hstop).
      * lia.
      * rewrite length_insert. lia.
      * lia.
      * by apply Forall_insert.
      * exists chunks', N. split; [done|]. split; [lia|].
        rewrite length_insert in Hlen. split; [done|]. split; [|split].
        -- intros j Hj. rewrite Hbelow by lia.
           apply list_lookup_insert_ne. lia.
        -- intros j Hj. destruct (Z.eq_dec (Z.of_nat j) chunk) as [Heq|Hneq].
           ++ subst chunk. split; [done|]. unfold chunk_text.
              rewrite Hbelow by lia. rewrite Nat2Z.id in *.
              rewrite list_lookup_insert_eq by lia. done.
           ++ apply Hrowsdone. lia.
        -- intros HN'. apply Hstop. lia.
Qed.
End ChunkLoop.

Lemma samplesPerChunk_pos (b : SensorBuffer) (k : Z) :
  0 <= sampleCount b -> 1 <= k ->
  exists per, samplesPerChunk b k = Done per /\ 1 <= per /\
              per = Z.max 1 (sampleCount b / k).
Proof.
  intros Hn Hk. unfold samplesPerChunk, int_div.
  destruct (k =? 0) eqn:Hk0; [lia|]. simpl.
  rewrite Z.quot_div_nonneg by lia.
  pose proof (Z.div_pos (sampleCount b) k Hn ltac:(lia)) as Hq.
  destruct (sampleCount b / k =? 0) eqn:Hq0; eexists; (split; [done|lia]).
Qed.

(** What [getDataAsChunks] returns, row by row. *)
Lemma getDataAsChunks_spec (b : SensorBuffer) (chunks : list (list ascii)) (k : Z) :
  0 <= sampleCount b <= Z.of_nat (length (samples b)) ->
  Forall short_sample (stored b) ->
  1 <= k <= Z.of_nat (length chunks) ->
  Forall row_ok chunks ->
  exists per chunks' N,
    samplesPerChunk b k = Done per /\ 1 <= per /\
    getDataAsChunks b chunks k = Done (chunks', N) /\
    0 <= N <= k /\
    length chunks' = length chunks /\
    (forall j : nat, Z.of_nat j < N ->
       group b per (Z.of_nat j) <> [] /\
       chunk_text chunks' j
       = render (printed CHUNK_GUARD (group b per (Z.of_nat j)) 0)) /\
    (N < k -> sampleCount b <= N * per).
Proof.
  intros Hn Hshort Hk Hok.
  destruct (samplesPerChunk_pos b k) as (per & Hper & Hper1 & _); [lia|lia|].
  destruct (chunk_loop_spec b k per ltac:(lia) ltac:(lia) Hshort Hper1
              (Z.to_nat k) 0 chunks)
    as (chunks' & N & Hrun & HN & Hlen & _ & Hrows & Hstop); [lia|lia|lia|done|].
  exists per, chunks', N. split; [done|]. split; [done|].
  unfold getDataAsChunks. rewrite Hper. simpl. split; [done|].
  split; [lia|]. split; [done|]. split.
  - intros j Hj. apply Hrows. lia.
  - intros HN'. apply Hstop. lia.
Qed.




(** Samples past [maxChunks * samplesPerChunk] are in no chunk. *)
Example getDataAsChunks_remainder :
  let b := addSamples [1; 2; 3; 4; 5] SensorBuffer_new in
  exists chunks',
    getDataAsChunks b (blank_chunks 2) 2 = Done (chunks', 2) /\
    decoded_rows chunks' 2 = [[1; 2]; [3; 4]].
Proof. eexists. split; vm_compute; reflexivity. Qed.

(** C2 as stated fails: neither chunk decodes to 216 samples. *)
Lemma getDataAsChunks_432_not_216_each :
  let b := addSamples (seqZ 0 432) SensorBuffer_new in
  exists chunks',
    getDataAsChunks b (blank_chunks 2) 2 = Done (chunks', 2) /\
    decode (chunk_text chunks' 0) <> seqZ 0 216 /\
    decode (chunk_text chunks' 1) <> seqZ 216 216.
Proof.
  intros b. eexists. split; [vm_compute; reflexivity|].
  split; vm_compute; discriminate.
Qed.

(** C2 (as the code has it). With the 432 values 0..431 appended to a fresh
    buffer of capacity 500, [getDataAsChunks] with [maxChunks = 2] fills
    exactly two chunks: the 190-character guard ends chunk 0 after the 67
    samples 0..66 and chunk 1 after the 48 samples 216..263. *)
Theorem getDataAsChunks_432 (chunks : list (list ascii)) :
  2 <= Z.of_nat (length chunks) ->
  Forall row_ok chunks ->
  MAX_SAMPLES = 500 /\
  exists chunks',
    getDataAsChunks (addSamples (seqZ 0 432) SensorBuffer_new) chunks 2
    = Done (chunks', 2) /\
    decode (chunk_text chunks' 0) = seqZ 0 67 /\
    decode (chunk_text chunks' 1) = seqZ 216 48.
Proof.
  intros Hrows Hok. split; [done|].
  set (b := addSamples (seqZ 0 432) SensorBuffer_new).
  assert (Hst : stored b = seqZ 0 432) by (vm_compute; reflexivity).
  destruct (getDataAsChunks_spec b chunks 2)
    as (per & chunks' & N & Hper & _ & Hrun & HN & _ & Htext & Hstop).
  - vm_compute. split; discriminate.
  - rewrite Hst. apply Forall_seqZ. unfold short_sample. lia.
  - lia.
  - done.
  - vm_compute in Hper. injection Hper as <-.
    assert (HN2 : N = 2).
    { destruct (Z.lt_ge_cases N 2) as [Hlt|Hge]; [|lia].
      specialize (Hstop Hlt). change (sampleCount b) with 432 in Hstop. lia. }
    subst N. exists chunks'. split; [done|].
    destruct (Htext 0%nat ltac:(lia)) as [_ ->].
    destruct (Htext 1%nat ltac:(lia)) as [_ ->].
    rewrite !decode_render. split; vm_compute; reflexivity.
Qed.

Lemma getDataAsChunks_432_witness :
  MAX_SAMPLES = 500 /\
  exists chunks',
    getDataAsChunks (addSamples (seqZ 0 432) SensorBuffer_new) (blank_chunks 2) 2
    = Done (chunks', 2) /\
    decode (chunk_text chunks' 0) = seqZ 0 67 /\
    decode (chunk_text chunks' 1) = seqZ 216 48.
Proof.
  apply (getDataAsChunks_432 (blank_chunks 2)).
  - vm_compute. discriminate.
  - repeat (apply List.Forall_cons; [reflexivity|]). apply List.Forall_nil.
Defined.

(* ===================================================================== *)
(** * Appending samples *)
(* ===================================================================== *)

Lemma clear_wf (b : SensorBuffer) : wf_buffer (clear b).
Proof.
  split.
  - vm_compute. reflexivity.
  - simpl. unfold MAX_SAMPLES. lia.
  - done.
  - unfold clear. cbn [samples].
    apply Forall_replicate. unfold in_int, INT_MIN, INT_MAX. lia.
Qed.

Lemma addSample_wf (v : Z) (b : SensorBuffer) :
  in_int v -> wf_buffer b -> wf_buffer (addSample v b).
Proof.
  intros Hv [Hlen Hidx Hcnt Hints]. unfold addSample.
  destruct (currentIndex b <? MAX_SAMPLES) eqn:Hroom; [|done].
  apply Z.ltb_lt in Hroom. split; simpl.
  - by rewrite length_insert.
  - lia.
  - done.
  - by apply Forall_insert.
Qed.

(** Every state reached through the public interface is well formed. *)
Lemma reachable_wf (b : SensorBuffer) : reachable b -> wf_buffer b.
Proof.
  induction 1 as [|v b Hv _ IH|b _ _].
  - apply clear_wf.
  - by apply addSample_wf.
  - apply clear_wf.
Qed.

(** A sample that is accepted goes behind the ones already stored. *)
Lemma addSample_stored (v : Z) (b : SensorBuffer) :
  wf_buffer b -> isFull b = false -> stored (addSample v b) = stored b ++ [v].
Proof.
  intros [Hlen Hidx Hcnt _] Hfull. unfold isFull in Hfull. apply Z.leb_gt in Hfull.
  unfold addSample. destruct (currentIndex b <? MAX_SAMPLES) eqn:Hroom; [|lia].
  unfold stored. simpl. rewrite Hcnt.
  replace (Z.to_nat (currentIndex b + 1)) with (S (Z.to_nat (currentIndex b))) by lia.
  rewrite (take_S_r _ _ v) by (apply list_lookup_insert_eq; lia).
  by rewrite take_insert_ge by lia.
Qed.


Lemma addSample_full (v : Z) (b : SensorBuffer) :
  isFull b = true -> addSample v b = b.
Proof.
  unfold isFull, addSample. intros H. apply Z.leb_le in H.
  destruct (currentIndex b <? MAX_SAMPLES) eqn:Hroom; [lia|done].
Qed.



(** A buffer filled to capacity turns the next sample away. *)
Example addSample_on_full_buffer :
  let b := addSamples (seqZ 0 500) SensorBuffer_new in
  isFull b = true /\ getSampleCount b = 500 /\ addSample 7 b = b.
Proof. intros b. split; [|split]; vm_compute; reflexivity. Qed.

(* ===================================================================== *)
(** * getDataAsString *)
(* ===================================================================== *)

(** For samples that render in at most ten characters the ten bytes kept
    free by the loop guard suffice: the terminator lands inside the
    array and the text is what was printed below the guard. *)
Lemma getDataAsString_short (b : SensorBuffer) (buffer : list ascii) (maxLength : Z) :
  0 <= sampleCount b <= Z.of_nat (length (samples b)) ->
  Forall short_sample (stored b) ->
  1 <= maxLength ->
  Z.of_nat (length buffer) = maxLength ->
  exists out,
    getDataAsString b buffer maxLength = Done out /\
    length out = length buffer /\
    cstring out = render (printed (maxLength - 10) (stored b) 0) /\
    Z.of_nat (length (cstring out)) <= maxLength - 1.
Proof.
  intros Hn Hshort Hmax Hbuf. unfold getDataAsString.
  destruct (print_loop_spec b (maxLength - 10) maxLength
              (Z.to_nat (sampleCount b)) 0 buffer 0)
    as (out & Hrun & Hlen & Htake & Hnil & Hcons); try lia.
  { change (Z.to_nat 0) with 0%nat. rewrite drop_0.
    apply Forall_forall. intros v Hv. apply short_sample_length.
    revert v Hv. apply Forall_forall. exact Hshort. }
  change (Z.to_nat 0) with 0%nat in *. rewrite drop_0 in *.
  fold (stored b) in *. rewrite Hrun. clear Hrun.
  remember (printed (maxLength - 10) (stored b) 0) as ws eqn:Hws.
  rewrite Z.add_0_l in *. simpl.
  destruct (decide (ws = [])) as [->|Hne].
  - rewrite (Hnil eq_refl). simpl.
    rewrite store_in_bounds by lia. eexists. split; [done|].
    split; [by rewrite length_insert|].
    destruct buffer as [|c buffer]; simpl in *; [lia|]. split; [done|lia].
  - destruct (Hcons Hne) as [Hlt Hnul].
    rewrite store_in_bounds by lia.
    rewrite (list_insert_id out _ NUL Hnul).
    exists out. split; [done|]. split; [done|].
    assert (Hcs : cstring out = render ws).
    { rewrite <- (take_drop (Z.to_nat (Z.of_nat (length (render ws)))) out).
      rewrite Htake. simpl. rewrite (drop_S out NUL _ Hnul).
      apply cstring_app_nul, render_no_nul. }
    rewrite Hcs. split; [done|lia].
Qed.

(** C5 fails on the code. One stored sample [INT_MIN] and an 11-byte
    destination: the guard [pos < maxLength - 10] lets the sample in,
    [snprintf] stores ten characters and a terminator in bytes 0..10 and
    returns 12, the length of the uncut text; [buffer[12]] is then
    written, two bytes past the end of the array. *)
Theorem getDataAsString_overflows :
  in_int INT_MIN /\
  fmt_d_sp INT_MIN = list_ascii_of_string "-2147483648 " /\
  getDataAsString (addSample INT_MIN SensorBuffer_new) (replicate 11 NUL) 11
  = OutOfBounds 12.
Proof.
  split; [vm_compute; split; discriminate|].
  split; vm_compute; reflexivity.
Qed.

(** Ten digits are enough to run past the end. *)
Example getDataAsString_overflows_positive :
  getDataAsString (addSample 1000000000 SensorBuffer_new) (replicate 11 NUL) 11
  = OutOfBounds 11.
Proof. vm_compute. reflexivity. Qed.

(* ===================================================================== *)
(** * samplesPerChunk *)
(* ===================================================================== *)

(** C8 as stated fails: [maxChunks >= 1] is not necessary. With
    [maxChunks = -1] nothing divides by zero; the quotient is [-5], the
    loop runs no turn, and the call returns with no chunk and the array
    untouched. *)
Lemma getDataAsChunks_negative_maxChunks :
  let b := addSamples [5; 6; 7; 8; 9] SensorBuffer_new in
  ~ (1 <= -1) /\
  samplesPerChunk b (-1) = Done (-5) /\
  getDataAsChunks b (blank_chunks 1) (-1) = Done (blank_chunks 1, 0).
Proof.
  intros b. split; [lia|]. split; vm_compute; reflexivity.
Qed.

(** C8 (as the code has it). [getDataAsChunks] divides the count by
    [maxChunks] without a guard, and the division is defined exactly when
    [maxChunks] is not zero. For every [maxChunks >= 1] and a count that
    is not negative [samplesPerChunk] is [max 1 (count / maxChunks)], at
    least 1. With [maxChunks = 0] the division, and with it the whole of
    [getDataAsChunks], divides by zero. With a negative [maxChunks]
    nothing divides by zero: the loop runs no turn, and the call returns
    with no chunk and the caller's array as it was. *)
Theorem samplesPerChunk_defined (b : SensorBuffer) (chunks : list (list ascii)) (k : Z) :
  0 <= sampleCount b ->
  (1 <= k ->
   exists per, samplesPerChunk b k = Done per /\ 1 <= per /\
               per = Z.max 1 (sampleCount b / k)) /\
  samplesPerChunk b 0 = DivideByZero /\
  getDataAsChunks b chunks 0 = DivideByZero /\
  ((exists per, samplesPerChunk b k = Done per) <-> k <> 0) /\
  (k < 0 -> getDataAsChunks b chunks k = Done (chunks, 0)).
Proof.
  intros Hn. split; [by apply samplesPerChunk_pos|].
  split; [done|]. split; [done|].
  assert (Hdef : k <> 0 -> exists per, samplesPerChunk b k = Done per).
  { intros Hk. unfold samplesPerChunk, int_div.
    destruct (k =? 0) eqn:Hk0; [lia|]. simpl. eauto. }
  split.
  - split; [|done]. intros [per Hper] ->. done.
  - intros Hneg. destruct (Hdef ltac:(lia)) as [per Hper].
    unfold getDataAsChunks. rewrite Hper. simpl.
    by replace (Z.to_nat k) with 0%nat by lia.
Qed.

Lemma samplesPerChunk_defined_witness :
  (exists per,
     samplesPerChunk (addSamples [5; 6; 7; 8; 9] SensorBuffer_new) 2 = Done per /\
     1 <= per /\ per = 2) /\
  getDataAsChunks (addSamples [5; 6; 7; 8; 9] SensorBuffer_new) [] (-3) = Done ([], 0).
Proof.
  split.
  - destruct (samplesPerChunk_defined (addSamples [5; 6; 7; 8; 9] SensorBuffer_new) [] 2)
      as (Hdef & _).
    + vm_compute. discriminate.
    + destruct Hdef as (per & Hper & Hpos & Hval).
      * lia.
      * exists per. split; [exact Hper|]. split; [exact Hpos|].
        rewrite Hval. vm_compute. reflexivity.
  - destruct (samplesPerChunk_defined (addSamples [5; 6; 7; 8; 9] SensorBuffer_new) [] (-3))
      as (_ & _ & _ & _ & Hneg).
    + vm_compute. discriminate.
    + apply Hneg. lia.
Defined.

(* ===================================================================== *)
(** * NonBlockingDelay::reset *)
(* ===================================================================== *)

(** C10. [reset(0)] restarts the delay at the current time and keeps the
    duration; [reset(ms)] with [ms > 0] restarts it and sets the duration
    to [ms]; so a duration that is not zero is never zero after [reset]. *)
Theorem reset_zero_keeps_duration (now ms : Z) (d : NonBlockingDelay) :
  reset now 0 d = {| startTime := now; duration := duration d |} /\
  (0 < ms -> reset now ms d = {| startTime := now; duration := ms |}) /\
  (duration d <> 0 -> duration (reset now ms d) <> 0).
Proof.
  unfold reset. split; [done|]. split.
  - intros Hms. destruct (0 <? ms) eqn:H; [done|lia].
  - intros Hd. simpl. destruct (0 <? ms) eqn:H; [lia|done].
Qed.

Lemma reset_zero_keeps_duration_witness :
  reset 1200 7 (NonBlockingDelay_new 100 5000)
  = {| startTime := 1200; duration := 7 |} /\
  duration (reset 1200 7 (NonBlockingDelay_new 100 5000)) <> 0.
Proof.
  destruct (reset_zero_keeps_duration 1200 7 (NonBlockingDelay_new 100 5000))
    as (_ & Hset & Hnz).
  split; [apply Hset; lia|apply Hnz; simpl; lia].
Defined.

(* ===================================================================== *)
(** * The connection manager *)
(* ===================================================================== *)

(** C7. Whatever the state of the connection, [isReady] answers false when
    the clock has reached the stored deadline [connectionTimeout]; it
    answers true exactly when [isConnected] holds and the clock is below
    the deadline. *)
Theorem isReady_deadline (env : Env) (c : GSMConnection) (w : World) :
  let now := env_millis env (ticks w) in
  (connectionTimeout c <= now -> (isReady env c w).1 = false) /\
  ((isReady env c w).1 = true <-> isConnected c = true /\ now < connectionTimeout c).
Proof.
  io_unfold. destruct (isConnected c); simpl.
  - split.
    + intros H. by apply Z.ltb_ge.
    + rewrite Z.ltb_lt. tauto.
  - split; [done|]. split; [done|]. by intros [? _].
Qed.

Lemma isReady_deadline_witness :
  (isReady quiet_env
     {| isConnected := true; lastConnectionAttempt := 5000; connectionTimeout := 35000 |}
     boot).1 = false.
Proof.
  apply (isReady_deadline quiet_env
           {| isConnected := true; lastConnectionAttempt := 5000;
              connectionTimeout := 35000 |} boot).
  simpl. lia.
Defined.

(** A call of [connect] within the interval after the last attempt does
    nothing but read the clock. *)
Lemma connect_limited (env : Env) (c : GSMConnection) (w : World) :
  isConnected c = false ->
  wrap_ulong (env_millis env (ticks w) - lastConnectionAttempt c) < MIN_RETRY_INTERVAL ->
  connect env c w = ((false, c), after_tick w).
Proof.
  intros Hc Hlt. io_unfold. rewrite Hc.
  destruct (_ <? _) eqn:H; [done|lia].
Qed.

(** A call of [connect] at or after the interval records the attempt and
    goes to the modem. *)
Lemma connect_attempts (env : Env) (c : GSMConnection) (w : World) :
  isConnected c = false ->
  MIN_RETRY_INTERVAL <= wrap_ulong (env_millis env (ticks w) - lastConnectionAttempt c) ->
  let r := connect env c w in
  lastConnectionAttempt r.1.2 = env_millis env (ticks w) /\
  connectionTimeout r.1.2 = wrap_ulong (env_millis env (ticks w) + CONNECTION_TIMEOUT) /\
  isConnected r.1.2 = r.1.1 /\
  exists rest, log r.2 = log w ++ attempt_events ++ rest.
Proof.
  intros Hc Hge. io_unfold. rewrite Hc.
  destruct (_ <? _) eqn:H; [lia|].
  repeat io_case; rewrite <- ?app_assoc; simpl; eauto 10.
Qed.

(** C4 (as the code has it). On a connection manager that is not connected,
    take a [connect] call that makes an attach attempt (it comes at least
    5000 ms after the recorded last attempt) and fails. A second call less
    than 5000 ms (modulo [2^32]) after that one returns false and only
    reads the clock: nothing is sent to the modem, nothing is printed, and
    [lastConnectionAttempt] and [connectionTimeout] stay as they are. A
    second call at or after the interval records the new attempt time and
    deadline and goes to the modem again. The interval runs from the last
    attempt, not from the last call. *)
Theorem connect_rate_limit (env : Env) (c : GSMConnection) (w : World) :
  isConnected c = false ->
  MIN_RETRY_INTERVAL <= wrap_ulong (env_millis env (ticks w) - lastConnectionAttempt c) ->
  (connect env c w).1.1 = false ->
  let t1 := env_millis env (ticks w) in
  let c1 := (connect env c w).1.2 in
  let w1 := (connect env c w).2 in
  let t2 := env_millis env (ticks w1) in
  MIN_RETRY_INTERVAL = 5000 /\
  lastConnectionAttempt c1 = t1 /\
  (wrap_ulong (t2 - t1) < MIN_RETRY_INTERVAL ->
     connect env c1 w1 = ((false, c1), after_tick w1)) /\
  (MIN_RETRY_INTERVAL <= wrap_ulong (t2 - t1) ->
     lastConnectionAttempt (connect env c1 w1).1.2 = t2 /\
     connectionTimeout (connect env c1 w1).1.2 = wrap_ulong (t2 + CONNECTION_TIMEOUT) /\
     exists rest, log (connect env c1 w1).2 = log w1 ++ attempt_events ++ rest).
Proof.
  intros Hc Hge Hfail t1 c1 w1 t2.
  destruct (connect_attempts env c w Hc Hge) as (Hlast & _ & Hconn & _).
  fold c1 in Hlast, Hconn. rewrite Hfail in Hconn.
  split; [done|]. split; [done|]. split.
  - intros Hlt. apply connect_limited; [done|]. by rewrite Hlast.
  - intros Hge2.
    destruct (connect_attempts env c1 w1 Hconn) as (H1 & H2 & _ & H3).
    { by rewrite Hlast. }
    done.
Qed.

Lemma connect_rate_limit_witness :
  let c1 := (connect dead_link_env GSMConnection_new boot).1.2 in
  let w1 := (connect dead_link_env GSMConnection_new boot).2 in
  connect dead_link_env c1 w1 = ((false, c1), after_tick w1).
Proof.
  intros c1 w1.
  destruct (connect_rate_limit dead_link_env GSMConnection_new boot)
    as (_ & _ & Hlimited & _).
  - reflexivity.
  - vm_compute. discriminate.
  - reflexivity.
  - apply Hlimited. vm_compute. reflexivity.
Defined.

(** C4 as stated fails. After a failed attempt at 10000 ms, a call at
    14000 ms is turned away; the call at 16000 ms comes 2000 ms after that
    one and still goes to the modem and moves [lastConnectionAttempt]. *)
Lemma connect_second_call_attempts :
  let a := connect dead_link_env GSMConnection_new boot in
  let first := connect dead_link_env a.1.2 a.2 in
  let second := connect dead_link_env first.1.2 first.2 in
  isConnected a.1.2 = false /\
  env_millis dead_link_env (ticks a.2) = 14000 /\
  env_millis dead_link_env (ticks first.2) = 16000 /\
  first.1.1 = false /\ isConnected first.1.2 = false /\
  wrap_ulong (16000 - 14000) < MIN_RETRY_INTERVAL /\
  second.1.1 = false /\
  log second.2 = log first.2 ++
    [Serial_print ("Attempting GSM connection..." +:+ CRLF);
     GSM_begin PINNUMBER;
     Serial_print ("GSM connection failed - will retry later" +:+ CRLF)] /\
  lastConnectionAttempt first.1.2 = 10000 /\
  lastConnectionAttempt second.1.2 = 16000.
Proof. vm_compute. repeat split. Qed.

Lemma connect_same_uplink (env env' : Env) (c : GSMConnection) (w : World) :
  same_uplink env env' -> connect env' c w = connect env c w.
Proof.
  intros (Hm & Hb & Ha & _). io_unfold.
  destruct (isConnected c); [done|]. rewrite <- Hm.
  destruct (_ <? _); [done|]. simpl. rewrite <- Hb.
  destruct (decide _); [|done]. simpl. by rewrite <- Ha.
Qed.

Lemma ensure_ready_same_uplink (env env' : Env) (c : GSMConnection) (w : World) :
  same_uplink env env' -> ensure_ready env' c w = ensure_ready env c w.
Proof.
  intros Hsame.
  pose proof (fun w' => connect_same_uplink env env' c w' Hsame) as Hc.
  destruct Hsame as (Hm & _). unfold ensure_ready, isReady in *.
  unfold mbind, IO_bind, mret, IO_ret, millis in *.
  destruct (isConnected c); simpl.
  - rewrite <- Hm. destruct (_ <? _); [done|]. by apply Hc.
  - by apply Hc.
Qed.

Lemma ensure_ready_log (env : Env) (c : GSMConnection) (w : World) :
  exists new, log (ensure_ready env c w).2 = log w ++ new /\
              Forall (fun e => reads_response e = false) new.
Proof.
  io_unfold. repeat io_case; rewrite <- ?app_assoc; simpl;
    eexists; (split; [try reflexivity; by rewrite app_nil_r|]);
    repeat constructor.
Qed.

(** C6. [sendData] returns true exactly when the connection was ready or
    [connect] brought it up, and the client's [connect] to the ThingSpeak
    endpoint then answered with success; in that case the request line,
    the [Host] header, [Connection: close] and the empty line have been
    written after it. When readiness cannot be established the result is
    false and the endpoint is not contacted; when the client's [connect]
    fails the result is false. No call inspects a response, and the result
    is the same whatever the server would send back. *)
Theorem sendData_result (env : Env) (url method : string) (c : GSMConnection) (w : World) :
  let e := ensure_ready env c w in
  let r := sendData env url method c w in
  (r.1.1 = true <-> e.1.1 = true /\ env_connect env (polls e.2) <> 0) /\
  (r.1.1 = true ->
     log r.2 = log e.2
               ++ Client_connect THINGSPEAK_SERVER THINGSPEAK_PORT
               :: request_events url method) /\
  (e.1.1 = false -> r = ((false, e.1.2), e.2)) /\
  (exists new, log r.2 = log w ++ new /\
               Forall (fun ev => reads_response ev = false) new) /\
  (forall env', same_uplink env env' -> sendData env' url method c w = r).
Proof.
  intros e r.
  destruct (ensure_ready_log env c w) as (new & Hnew & Hquiet). fold e in Hnew.
  assert (Hr : r = sendData env url method c w) by done.
  unfold sendData in Hr. unfold mbind at 1, IO_bind in Hr. fold e in Hr.
  destruct e as [[go_on c1] w1] eqn:He. simpl in *.
  destruct go_on.
  - unfold query, client_print, client_println, Serial_println, emit,
      mbind, IO_bind, mret, IO_ret in Hr. simpl in Hr.
    destruct (env_connect env (polls w1) =? 0) eqn:Hans; simpl in Hr; subst r;
      rewrite !Hr; simpl.
    + apply Z.eqb_eq in Hans. split; [split; [done|intros [_ ?]; done]|].
      split; [done|]. split; [done|]. split.
      * eexists. rewrite Hnew, <- !app_assoc. split; [done|].
        apply Forall_app. split; [done|]. repeat constructor.
      * intros env' Hsame. unfold sendData. unfold mbind at 1, IO_bind.
        rewrite (ensure_ready_same_uplink env env' c w Hsame). fold e. rewrite He.
        destruct Hsame as (_ & _ & _ & Hcn).
        unfold query, client_print, client_println, Serial_println, emit,
          mbind, IO_bind, mret, IO_ret. simpl. rewrite <- Hcn, Hans. simpl.
        apply Z.eqb_eq in Hans. done.
    + apply Z.eqb_neq in Hans. split; [done|].
      split; [intros _; by rewrite <- !app_assoc|]. split; [done|]. split.
      * eexists. rewrite Hnew, <- !app_assoc. split; [done|].
        apply Forall_app. split; [done|]. repeat constructor.
      * intros env' Hsame. unfold sendData. unfold mbind at 1, IO_bind.
        rewrite (ensure_ready_same_uplink env env' c w Hsame). fold e. rewrite He.
        destruct Hsame as (_ & _ & _ & Hcn).
        unfold query, client_print, client_println, Serial_println, emit,
          mbind, IO_bind, mret, IO_ret. simpl. rewrite <- Hcn.
        apply Z.eqb_neq in Hans. by rewrite Hans.
  - unfold mret, IO_ret in Hr. subst r. rewrite !Hr. simpl.
    split; [split; [done|intros [? _]; done]|].
    split; [done|]. split; [done|]. split.
    + exists new. done.
    + intros env' Hsame. unfold sendData. unfold mbind at 1, IO_bind.
      rewrite (ensure_ready_same_uplink env env' c w Hsame). fold e. by rewrite He.
Qed.

Lemma sendData_result_witness :
  (sendData quiet_env "/update" "GET" GSMConnection_new boot).1.1 = true /\
  log (sendData quiet_env "/update" "GET" GSMConnection_new boot).2
  = log (ensure_ready quiet_env GSMConnection_new boot).2
    ++ Client_connect THINGSPEAK_SERVER THINGSPEAK_PORT
    :: request_events "/update" "GET".
Proof.
  destruct (sendData_result quiet_env "/update" "GET" GSMConnection_new boot)
    as (Hiff & Hlog & _).
  assert (Htrue : (sendData quiet_env "/update" "GET" GSMConnection_new boot).1.1 = true).
  { apply Hiff. split; [reflexivity|]. vm_compute. discriminate. }
  split; [exact Htrue|]. apply Hlog. exact Htrue.
Defined.

(* ===================================================================== *)
(** * sendToThingSpeak *)
(* ===================================================================== *)

Lemma handleResponse_ticks (env : Env) (w : World) :
  ticks (handleResponse env w).2 = ticks w.
Proof. io_unfold. repeat io_case; done. Qed.

Lemma response_loop_step (env : Env) (fuel : nat) (d : NonBlockingDelay)
    (gsm : GSMConnection) (w : World) :
  response_loop env (S fuel) d gsm w =
  if isComplete (env_millis env (ticks w)) d then (true, after_tick w)
  else
    let w1 := (handleResponse env (after_tick w)).2 in
    let r := isReady env gsm w1 in
    if negb r.1 then (true, r.2) else response_loop env fuel d gsm r.2.
Proof.
  simpl. unfold mbind, IO_bind, mret, IO_ret, millis. simpl. fold (after_tick w).
  destruct (isComplete _ d); [done|].
  destruct (handleResponse env (after_tick w)) as [[] w1]. simpl.
  destruct (isReady env gsm w1) as [ready w2]. simpl.
  by destruct ready.
Qed.

(** The loop is left at the latest at the first completion check that sees
    the delay elapsed; each turn that goes on reads the clock twice. *)
Lemma response_loop_left (env : Env) (d : NonBlockingDelay) (gsm : GSMConnection) :
  isConnected gsm = true ->
  forall i w,
    isComplete (env_millis env (ticks w + 2 * i)) d = true ->
    (response_loop env (S i) d gsm w).1 = true.
Proof.
  intros Hconn. induction i as [|i IH]; intros w Hdone; rewrite response_loop_step.
  - rewrite Nat.add_0_r in Hdone. by rewrite Hdone.
  - destruct (isComplete (env_millis env (ticks w)) d); [done|]. cbv zeta.
    pose proof (handleResponse_ticks env (after_tick w)) as Hticks.
    set (w1 := (handleResponse env (after_tick w)).2) in *.
    unfold isReady. rewrite Hconn. unfold mbind, IO_bind, mret, IO_ret, millis. simpl.
    destruct (env_millis env (ticks w1) <? connectionTimeout gsm); simpl; [|done].
    apply IH. cbn [ticks after_tick] in *.
    match goal with
    | |- context [env_millis env ?n] =>
        by replace n with (ticks w + 2 * S i)%nat by lia
    end.
Qed.

Lemma sendData_connects (env : Env) (url method : string) (w : World) :
  (sendData env url method GSMConnection_new w).1.1 = true ->
  isConnected (sendData env url method GSMConnection_new w).1.2 = true.
Proof. io_unfold. repeat io_case; done. Qed.

(** C9. [sendToThingSpeak] works on a [GSMConnection] of its own making,
    which is not connected and not ready. Whenever it returns, it returns
    what [sendData] returned on that connection. When [sendData] fails it
    returns false at once. When [sendData] succeeds it returns true as soon
    as a completion check sees 5000 ms elapsed, at the latest, whatever
    the server sends or does not send in the meantime: the polled bytes do
    not enter the result. *)
Theorem sendToThingSpeak_result (env : Env) (data : string) (field : Z) (w : World) :
  let s := sendData env (update_url data field) "GET" GSMConnection_new w in
  isConnected GSMConnection_new = false /\
  (forall w0, (isReady env GSMConnection_new w0).1 = false) /\
  (forall fuel r, (sendToThingSpeak env fuel data field w).1 = Some r -> r = s.1.1) /\
  (s.1.1 = false -> forall fuel, (sendToThingSpeak env fuel data field w).1 = Some false) /\
  (s.1.1 = true ->
   forall i,
     5000 <= wrap_ulong (env_millis env (S (ticks s.2) + 2 * i)
                         - env_millis env (ticks s.2)) ->
     (sendToThingSpeak env (S i) data field w).1 = Some true).
Proof.
  intros s. split; [done|]. split; [done|].
  assert (Hunf : forall fuel,
    (sendToThingSpeak env fuel data field w).1 =
    if s.1.1 then
      if (response_loop env fuel
            (NonBlockingDelay_new (env_millis env (ticks s.2)) 5000)
            s.1.2 (after_tick s.2)).1
      then Some true else None
    else Some false).
  { intros fuel. unfold sendToThingSpeak. unfold mbind at 1, IO_bind. fold s.
    destruct s as [[sent gsm'] w1]. simpl. destruct sent; [|done].
    unfold mbind, IO_bind, mret, IO_ret, millis. simpl. fold (after_tick w1).
    by destruct (response_loop _ _ _ _ _) as [[] ?]. }
  split; [|split].
  - intros fuel r. rewrite Hunf. destruct (s.1.1); [|congruence].
    destruct (response_loop _ _ _ _ _).1; congruence.
  - intros Hs fuel. by rewrite Hunf, Hs.
  - intros Hs i Hi. rewrite Hunf, Hs.
    rewrite response_loop_left; [done| |].
    + by apply sendData_connects.
    + unfold isComplete. simpl. by apply Z.leb_le.
Qed.

Lemma sendToThingSpeak_result_witness :
  (forall k, env_available quiet_env k = 0) /\
  (sendToThingSpeak quiet_env 3 "512" 1 boot).1 = Some true.
Proof.
  split; [reflexivity|].
  destruct (sendToThingSpeak_result quiet_env "512" 1 boot) as (_ & _ & _ & _ & Hsent).
  apply (Hsent eq_refl 2%nat). vm_compute. discriminate.
Defined.

(** With a modem that does not attach nothing is sent and the answer is
    false. *)
Example sendToThingSpeak_dead_link :
  (sendToThingSpeak dead_link_env 0 "512" 1 boot).1 = Some false.
Proof. vm_compute. reflexivity. Qed.

(* ===================================================================== *)
(** * More on the sample buffer *)
(* ===================================================================== *)

Lemma addSamples_cons (v : Z) (vs : list Z) (b : SensorBuffer) :
  addSamples (v :: vs) b = addSamples vs (addSample v b).
Proof. done. Qed.

Lemma isFull_count (b : SensorBuffer) :
  wf_buffer b -> (isFull b = true <-> getSampleCount b = MAX_SAMPLES).
Proof.
  intros [_ Hidx Hcnt _]. unfold isFull, getSampleCount. rewrite Hcnt, Z.leb_le. lia.
Qed.

Lemma addSample_count (v : Z) (b : SensorBuffer) :
  wf_buffer b -> isFull b = false -> sampleCount (addSample v b) = sampleCount b + 1.
Proof.
  intros [_ _ Hcnt _] Hfull. unfold isFull in Hfull. apply Z.leb_gt in Hfull.
  unfold addSample. destruct (currentIndex b <? MAX_SAMPLES) eqn:Hroom; [|lia].
  simpl. lia.
Qed.

(** What a run of [addSample] calls stores and counts. *)
Lemma addSamples_stored_count (vs : list Z) : forall b,
  wf_buffer b -> Forall in_int vs ->
  wf_buffer (addSamples vs b) /\
  stored (addSamples vs b)
  = stored b ++ take (Z.to_nat (MAX_SAMPLES - sampleCount b)) vs /\
  sampleCount (addSamples vs b)
  = Z.min MAX_SAMPLES (sampleCount b + Z.of_nat (length vs)).
Proof.
  induction vs as [|v vs IH]; intros b Hwf Hints.
  - split; [done|]. split; [simpl; by rewrite take_nil, app_nil_r|].
    destruct Hwf as [_ Hidx Hcnt _]. simpl. lia.
  - apply Forall_cons_1 in Hints as [Hv Hints]. rewrite addSamples_cons.
    pose proof Hwf as [_ Hidx Hcnt _].
    destruct (isFull b) eqn:Hfull.
    + rewrite (addSample_full v b Hfull).
      destruct (IH b Hwf Hints) as (Hwf' & Hst & Hn).
      apply isFull_count in Hfull; [|done]. unfold getSampleCount in Hfull.
      rewrite Hfull in *. rewrite Z.sub_diag in *. change (Z.to_nat 0) with 0%nat in *.
      rewrite take_0 in Hst. rewrite take_0.
      split; [done|]. split; [done|]. simpl length. lia.
    + destruct (IH (addSample v b) (addSample_wf v b Hv Hwf) Hints)
        as (Hwf' & Hst & Hn).
      rewrite addSample_stored, addSample_count in * by done.
      unfold isFull in Hfull. apply Z.leb_gt in Hfull.
      split; [done|]. split.
      * rewrite Hst, <- app_assoc. simpl. f_equal.
        replace (Z.to_nat (MAX_SAMPLES - sampleCount b))
          with (S (Z.to_nat (MAX_SAMPLES - (sampleCount b + 1)))) by lia.
        done.
      * rewrite Hn. simpl length. lia.
Qed.

(** X1. Appending is first in, first kept: after any run of [addSample]
    calls with [int] values on a well-formed buffer, the stored samples are
    the ones stored before followed by as many of the new values, in call
    order, as there was room for; the rest are dropped, and the count is
    the smaller of the capacity and the old count plus the number of
    calls. *)
Theorem addSamples_appends (vs : list Z) (b : SensorBuffer) :
  wf_buffer b -> Forall in_int vs ->
  stored (addSamples vs b)
  = stored b ++ take (Z.to_nat (MAX_SAMPLES - getSampleCount b)) vs /\
  getSampleCount (addSamples vs b)
  = Z.min MAX_SAMPLES (getSampleCount b + Z.of_nat (length vs)).
Proof.
  intros Hwf Hints.
  destruct (addSamples_stored_count vs b Hwf Hints) as (_ & Hst & Hn). done.
Qed.

Lemma addSamples_appends_witness :
  stored (addSamples [4; 5] (addSamples [1; 2; 3] SensorBuffer_new))
  = [1; 2; 3; 4; 5].
Proof.
  destruct (addSamples_appends [4; 5] (addSamples [1; 2; 3] SensorBuffer_new))
    as [Hst _].
  - destruct (addSamples_stored_count [1; 2; 3] SensorBuffer_new) as [Hwf _].
    + apply clear_wf.
    + repeat (apply List.Forall_cons; [unfold in_int, INT_MIN, INT_MAX; lia|]).
      apply List.Forall_nil.
    + exact Hwf.
  - repeat (apply List.Forall_cons; [unfold in_int, INT_MIN, INT_MAX; lia|]).
    apply List.Forall_nil.
  - rewrite Hst. vm_compute. reflexivity.
Defined.

(** X2. [clear] empties any buffer for a full refill: whatever the buffer
    held, after [clear] and a run of [addSample] calls it stores the first
    [MAX_SAMPLES] of the new values, and it is full exactly when there
    were at least [MAX_SAMPLES] of them. *)
Theorem clear_then_refill (vs : list Z) (b : SensorBuffer) :
  Forall in_int vs ->
  getSampleCount (clear b) = 0 /\
  stored (addSamples vs (clear b)) = take (Z.to_nat MAX_SAMPLES) vs /\
  (isFull (addSamples vs (clear b)) = true <-> MAX_SAMPLES <= Z.of_nat (length vs)).
Proof.
  intros Hints. split; [done|].
  destruct (addSamples_stored_count vs (clear b) (clear_wf b) Hints) as (Hwf & Hst & Hn).
  split.
  - rewrite Hst. change (sampleCount (clear b)) with 0. by rewrite Z.sub_0_r.
  - rewrite (isFull_count _ Hwf). unfold getSampleCount. rewrite Hn.
    change (sampleCount (clear b)) with 0. unfold MAX_SAMPLES. lia.
Qed.

Lemma clear_then_refill_witness :
  stored (addSamples [7; 8] (clear (addSamples [1; 2; 3] SensorBuffer_new))) = [7; 8].
Proof.
  destruct (clear_then_refill [7; 8] (addSamples [1; 2; 3] SensorBuffer_new))
    as (_ & Hst & _).
  - repeat (apply List.Forall_cons; [unfold in_int, INT_MIN, INT_MAX; lia|]).
    apply List.Forall_nil.
  - rewrite Hst. reflexivity.
Defined.

Lemma reachable_tail_zero (b : SensorBuffer) :
  reachable b ->
  forall i : nat, sampleCount b <= Z.of_nat i < MAX_SAMPLES -> samples b !! i = Some 0.
Proof.
  induction 1 as [|v b Hv Hb IH|b _ _]; intros i Hi.
  - apply lookup_replicate_2. unfold MAX_SAMPLES in *. simpl in *. lia.
  - pose proof (reachable_wf b Hb) as [_ Hidx Hcnt _].
    unfold addSample in *. destruct (currentIndex b <? MAX_SAMPLES) eqn:Hroom.
    + simpl in *. rewrite list_lookup_insert_ne by lia. apply IH. lia.
    + by apply IH.
  - apply lookup_replicate_2. unfold MAX_SAMPLES in *. simpl in *. lia.
Qed.

(** X3. Every state reached through the constructor, [addSample] and
    [clear] keeps the class invariant: the array has [MAX_SAMPLES] slots
    of [int], the count equals the write index and lies within
    [0 .. MAX_SAMPLES], [isFull] holds exactly when the count is
    [MAX_SAMPLES], and every slot at or past the count holds zero. *)
Theorem reachable_invariant (b : SensorBuffer) :
  reachable b ->
  wf_buffer b /\
  0 <= getSampleCount b <= MAX_SAMPLES /\
  (isFull b = true <-> getSampleCount b = MAX_SAMPLES) /\
  (forall i : nat, getSampleCount b <= Z.of_nat i < MAX_SAMPLES ->
     samples b !! i = Some 0).
Proof.
  intros Hb. pose proof (reachable_wf b Hb) as Hwf.
  split; [done|]. split.
  - destruct Hwf as [_ Hidx Hcnt _]. unfold getSampleCount. lia.
  - split; [by apply isFull_count|]. by apply reachable_tail_zero.
Qed.

Lemma reachable_invariant_witness :
  0 <= getSampleCount (addSample 9 (clear (addSample 3 SensorBuffer_new))) <= MAX_SAMPLES.
Proof.
  destruct (reachable_invariant (addSample 9 (clear (addSample 3 SensorBuffer_new))))
    as (_ & Hn & _).
  - apply reach_add; [unfold in_int, INT_MIN, INT_MAX; lia|].
    apply reach_clear. apply reach_add; [unfold in_int, INT_MIN, INT_MAX; lia|].
    apply reach_new.
  - exact Hn.
Defined.

(* ===================================================================== *)
(** * More on getDataAsString *)
(* ===================================================================== *)

Lemma printed_all (limit : Z) (vs : list Z) : forall pos,
  pos + Z.of_nat (length (render vs)) <= limit -> printed limit vs pos = vs.
Proof.
  induction vs as [|v vs IH]; intros pos Hfit; simpl in *; [done|].
  rewrite length_app in Hfit. pose proof (fmt_d_sp_length_pos v) as Hv.
  destruct (pos <? limit) eqn:Hg; [|lia].
  rewrite IH; [done|lia].
Qed.

(** X4. For samples that render in at most ten characters
    [getDataAsString] leaves a terminated text of at most [maxLength - 1]
    characters that decodes to the first stored samples, in order, and to
    all of them when their rendering is no longer than [maxLength - 10]. *)
Theorem getDataAsString_decodes (b : SensorBuffer) (buffer : list ascii) (maxLength : Z) :
  0 <= sampleCount b <= Z.of_nat (length (samples b)) ->
  Forall short_sample (stored b) ->
  1 <= maxLength ->
  Z.of_nat (length buffer) = maxLength ->
  exists out (m : nat),
    getDataAsString b buffer maxLength = Done out /\
    length out = length buffer /\
    Z.of_nat (length (cstring out)) <= maxLength - 1 /\
    decode (cstring out) = take m (stored b) /\
    (Z.of_nat (length (render (stored b))) <= maxLength - 10 ->
     cstring out = render (stored b) /\ decode (cstring out) = stored b).
Proof.
  intros Hn Hshort Hmax Hbuf.
  destruct (getDataAsString_short b buffer maxLength Hn Hshort Hmax Hbuf)
    as (out & Hrun & Hlen & Htext & Hfit).
  destruct (printed_prefix (maxLength - 10) (stored b) 0) as (m & _ & Hm).
  exists out, m. split; [done|]. split; [done|]. split; [done|].
  rewrite Htext, decode_render. split; [done|].
  intros Hall. rewrite printed_all by lia. done.
Qed.

Lemma getDataAsString_decodes_witness :
  exists out,
    getDataAsString (addSamples [12; -7; 300] SensorBuffer_new) (replicate 32 NUL) 32
    = Done out /\
    decode (cstring out) = [12; -7; 300].
Proof.
  assert (Hst : stored (addSamples [12; -7; 300] SensorBuffer_new) = [12; -7; 300])
    by (vm_compute; reflexivity).
  destruct (getDataAsString_decodes (addSamples [12; -7; 300] SensorBuffer_new)
              (replicate 32 NUL) 32)
    as (out & m & Hrun & _ & _ & _ & Hall).
  - vm_compute. split; discriminate.
  - rewrite Hst.
    repeat (apply List.Forall_cons; [unfold short_sample; lia|]). apply List.Forall_nil.
  - lia.
  - reflexivity.
  - exists out. split; [exact Hrun|]. rewrite <- Hst. apply Hall.
    vm_compute. discriminate.
Defined.

(** X5. With no sample stored, or with a destination of at most ten
    bytes, [getDataAsString] writes the empty string and nothing else:
    byte 0 becomes the terminator and every other byte stays as it was,
    whatever the buffer holds. *)
Theorem getDataAsString_empty (b : SensorBuffer) (buffer : list ascii) (maxLength : Z) :
  sampleCount b <= 0 \/ maxLength <= 10 ->
  buffer <> [] ->
  getDataAsString b buffer maxLength = Done (<[0%nat := NUL]> buffer) /\
  cstring (<[0%nat := NUL]> buffer) = [].
Proof.
  intros Hcase Hne. destruct buffer as [|c buffer]; [done|]. split; [|done].
  unfold getDataAsString.
  assert (Hloop : print_loop b (maxLength - 10) maxLength
                    (Z.to_nat (sampleCount b)) 0 (c :: buffer) 0
                  = Done (c :: buffer, 0)).
  { destruct Hcase as [Hn|Hm].
    - by replace (Z.to_nat (sampleCount b)) with 0%nat by lia.
    - destruct (Z.to_nat (sampleCount b)); [done|]. simpl.
      destruct (0 <? maxLength - 10) eqn:Hg; [lia|done]. }
  rewrite Hloop. simpl. rewrite store_in_bounds by (simpl; lia). done.
Qed.

Lemma getDataAsString_empty_witness :
  getDataAsString (addSamples [1; 2; 3] SensorBuffer_new)
    (list_ascii_of_string "previous") 8
  = Done (NUL :: list_ascii_of_string "revious").
Proof.
  destruct (getDataAsString_empty (addSamples [1; 2; 3] SensorBuffer_new)
              (list_ascii_of_string "previous") 8) as [Hrun _].
  - right. lia.
  - discriminate.
  - exact Hrun.
Defined.





(* ===================================================================== *)
(** * More on getDataAsChunks *)
(* ===================================================================== *)

(** A turn for a row whose group is empty leaves everything as it was,
    whether or not the caller's array has that row. *)
Lemma chunk_body_no_samples (b : SensorBuffer) (per chunk : Z)
    (chunks : list (list ascii)) (chunkCount : Z) :
  1 <= per -> 0 <= chunk -> sampleCount b <= chunk * per ->
  chunk_body b per chunk chunks chunkCount = Done (chunks, chunkCount).
Proof.
  intros Hper Hchunk Hout. unfold chunk_body.
  replace (Z.to_nat (Z.min (chunk * per + per) (sampleCount b) - chunk * per))
    with 0%nat by lia.
  simpl. destruct (chunks !! Z.to_nat chunk) as [row|] eqn:Hrow; simpl.
  - by rewrite list_insert_id.
  - rewrite list_insert_ge; [done|]. by apply lookup_ge_None.
Qed.

Lemma chunk_loop_no_samples (b : SensorBuffer) (maxChunks per : Z) :
  1 <= per ->
  forall n chunk chunks chunkCount,
    0 <= chunk -> sampleCount b <= chunk * per ->
    chunk_loop b maxChunks per n chunk chunks chunkCount = Done (chunks, chunkCount).
Proof.
  intros Hper. induction n as [|n IH]; intros chunk chunks chunkCount Hc Hout; [done|].
  simpl. destruct (chunkCount <? maxChunks); [|done].
  rewrite chunk_body_no_samples by done. simpl. apply IH; lia.
Qed.

(** X7. On a buffer with no stored sample [getDataAsChunks] produces no
    chunk for any [maxChunks >= 1] and leaves the caller's array as it
    was, whatever its size: no row is written, not even a terminator. *)
Theorem getDataAsChunks_empty_buffer (b : SensorBuffer) (chunks : list (list ascii)) (k : Z) :
  sampleCount b = 0 -> 1 <= k ->
  getDataAsChunks b chunks k = Done (chunks, 0).
Proof.
  intros Hn Hk. unfold getDataAsChunks, samplesPerChunk, int_div.
  destruct (k =? 0) eqn:Hk0; [lia|]. rewrite Hn. simpl.
  apply chunk_loop_no_samples; [lia|lia|lia].
Qed.

Lemma getDataAsChunks_empty_buffer_witness :
  getDataAsChunks (clear (addSamples [1; 2] SensorBuffer_new)) [] 3 = Done ([], 0).
Proof.
  apply (getDataAsChunks_empty_buffer (clear (addSamples [1; 2] SensorBuffer_new)) [] 3).
  - reflexivity.
  - lia.
Defined.

(** X8. With fewer samples than [maxChunks] (and samples that render in at
    most ten characters) [getDataAsChunks] emits one chunk per sample and
    no empty chunk: [chunkCount] is the number of stored samples and chunk
    [c] decodes to sample [c] alone. *)
Theorem getDataAsChunks_one_sample_each (b : SensorBuffer)
    (chunks : list (list ascii)) (k : Z) :
  0 <= sampleCount b <= Z.of_nat (length (samples b)) ->
  Forall short_sample (stored b) ->
  1 <= k <= Z.of_nat (length chunks) ->
  Forall row_ok chunks ->
  sampleCount b < k ->
  exists chunks',
    getDataAsChunks b chunks k = Done (chunks', sampleCount b) /\
    forall (c : nat) (v : Z),
      stored b !! c = Some v -> decode (chunk_text chunks' c) = [v].
Proof.
  intros Hn Hshort Hk Hok Hfew.
  destruct (getDataAsChunks_spec b chunks k Hn Hshort Hk Hok)
    as (per & chunks' & N & Hper & _ & Hrun & HN & _ & Hrows & Hstop).
  destruct (samplesPerChunk_pos b k) as (per' & Hper' & _ & Hval); [lia|lia|].
  rewrite Hper in Hper'. injection Hper' as <-.
  rewrite Z.div_small in Hval by lia. change (Z.max 1 0) with 1 in Hval. subst per.
  assert (HNn : N = sampleCount b).
  { assert (Hle : N <= sampleCount b).
    { destruct (Z.eq_dec N 0) as [->|Hne]; [lia|].
      destruct (Hrows (Z.to_nat (N - 1)) ltac:(lia)) as [Hg _].
      destruct (Z.le_gt_cases (sampleCount b) (Z.of_nat (Z.to_nat (N - 1)) * 1))
        as [Hout|Hin]; [|lia].
      exfalso. apply Hg. apply group_empty_iff; [lia|lia|lia|lia|done]. }
    destruct (Z.lt_ge_cases N k) as [Hlt|Hge]; [|lia].
    specialize (Hstop Hlt). lia. }
  subst N. exists chunks'. split; [done|].
  intros c v Hv.
  assert (Hc : Z.of_nat c < sampleCount b).
  { apply lookup_lt_Some in Hv. unfold stored in Hv. rewrite length_take in Hv. lia. }
  destruct (Hrows c Hc) as [_ ->]. rewrite decode_render.
  unfold group. replace (Z.to_nat (Z.of_nat c * 1)) with c by lia.
  change (Z.to_nat 1) with 1%nat.
  rewrite (drop_S _ v c Hv). simpl. done.
Qed.

Lemma getDataAsChunks_one_sample_each_witness :
  exists chunks',
    getDataAsChunks (addSamples [10; 20] SensorBuffer_new) (blank_chunks 3) 3
    = Done (chunks', 2) /\
    decode (chunk_text chunks' 1) = [20].
Proof.
  destruct (getDataAsChunks_one_sample_each (addSamples [10; 20] SensorBuffer_new)
              (blank_chunks 3) 3) as (chunks' & Hrun & Hrows).
  - vm_compute. split; discriminate.
  - assert (Hst : stored (addSamples [10; 20] SensorBuffer_new) = [10; 20])
      by (vm_compute; reflexivity).
    rewrite Hst.
    repeat (apply List.Forall_cons; [unfold short_sample; lia|]). apply List.Forall_nil.
  - vm_compute. split; discriminate.
  - repeat (apply List.Forall_cons; [reflexivity|]). apply List.Forall_nil.
  - vm_compute. reflexivity.
  - exists chunks'. split; [exact Hrun|]. apply Hrows. vm_compute. reflexivity.
Defined.

Lemma printed_render_bound (limit : Z) (vs : list Z) : forall pos,
  Forall short_sample vs ->
  pos + Z.of_nat (length (render (printed limit vs pos))) <= Z.max pos (limit + 9).
Proof.
  induction vs as [|v vs IH]; intros pos Hshort; simpl; [lia|].
  apply Forall_cons_1 in Hshort as [Hv Hshort].
  pose proof (short_sample_length v Hv) as Hv10.
  destruct (pos <? limit) eqn:Hg; simpl; [|lia].
  apply Z.ltb_lt in Hg. rewrite length_app.
  specialize (IH (pos + Z.of_nat (length (fmt_d_sp v))) Hshort). lia.
Qed.

Section ChunkRows.
Variable b : SensorBuffer.
Variables maxChunks per : Z.
Hypothesis count_nonneg : 0 <= sampleCount b.
Hypothesis count_in_array : (Z.to_nat (sampleCount b) <= length (samples b))%nat.
Hypothesis samples_short : Forall short_sample (stored b).
Hypothesis per_pos : 1 <= per.

(** Rows at or past the final [chunkCount] are left as they were. *)
Lemma chunk_loop_rest_untouched : forall n chunk chunks chunks' N,
  0 <= chunk ->
  (Z.to_nat chunk + n <= length chunks)%nat ->
  chunk + Z.of_nat n <= maxChunks ->
  Forall row_ok chunks ->
  chunk_loop b maxChunks per n chunk chunks chunk = Done (chunks', N) ->
  forall j : nat, N <= Z.of_nat j -> chunks' !! j = chunks !! j.
Proof.
  induction n as [|n IH]; intros chunk chunks chunks' N Hc Hrows Hmax Hok Hrun j Hj.
  - simpl in Hrun. by injection Hrun as <- <-.
  - simpl in Hrun. destruct (chunk <? maxChunks) eqn:Hguard; [|lia].
    destruct (lookup_lt_is_Some_2 chunks (Z.to_nat chunk) ltac:(lia)) as [row Hrow].
    assert (Hrok : row_ok row) by (by eapply Forall_lookup_1).
    destruct (chunk_body_spec b per chunk chunks chunk row)
      as [[Hempty Hbody]|(Hne & row' & Hbody & Hrok' & _)]; try done;
      rewrite Hbody in Hrun; simpl in Hrun.
    + apply group_empty_iff in Hempty; try done.
      rewrite chunk_loop_no_samples in Hrun by lia. by injection Hrun as <- <-.
    + destruct (chunk_loop_spec b maxChunks per count_nonneg count_in_array
                  samples_short per_pos n (chunk + 1) (<[Z.to_nat chunk := row']> chunks))
        as (chunks2 & N2 & Hrun2 & HN2 & _);
        [lia|rewrite length_insert; lia|lia|by apply Forall_insert|].
      rewrite Hrun2 in Hrun. injection Hrun as <- <-.
      rewrite (IH (chunk + 1) (<[Z.to_nat chunk := row']> chunks) chunks2 N2);
        [|lia|rewrite length_insert; lia|lia|by apply Forall_insert|done|done].
      apply list_lookup_insert_ne. lia.
Qed.
End ChunkRows.

(** X9. For samples that render in at most ten characters and [k >= 1]
    rows of 200 characters, every chunk [getDataAsChunks] emits is a
    non-empty text of at most 199 characters, so it fits its row with its
    terminator; the rows at and past [chunkCount] are left exactly as the
    caller had them. *)
Theorem getDataAsChunks_rows (b : SensorBuffer) (chunks : list (list ascii)) (k : Z) :
  0 <= sampleCount b <= Z.of_nat (length (samples b)) ->
  Forall short_sample (stored b) ->
  1 <= k <= Z.of_nat (length chunks) ->
  Forall row_ok chunks ->
  exists chunks' chunkCount,
    getDataAsChunks b chunks k = Done (chunks', chunkCount) /\
    length chunks' = length chunks /\
    (forall c : nat, Z.of_nat c < chunkCount ->
       (1 <= length (chunk_text chunks' c) <= 199)%nat) /\
    (forall j : nat, chunkCount <= Z.of_nat j -> chunks' !! j = chunks !! j).
Proof.
  intros Hn Hshort Hk Hok.
  destruct (getDataAsChunks_spec b chunks k Hn Hshort Hk Hok)
    as (per & chunks' & N & Hper & Hper1 & Hrun & HN & Hlen & Hrows & _).
  exists chunks', N. split; [done|]. split; [done|]. split.
  - intros c Hc. destruct (Hrows c Hc) as [Hne ->].
    pose proof (printed_nonempty CHUNK_GUARD _ 0 Hne ltac:(unfold CHUNK_GUARD; lia)) as Hp.
    apply render_nonempty in Hp.
    pose proof (printed_render_bound CHUNK_GUARD (group b per (Z.of_nat c)) 0) as Hb.
    unfold CHUNK_GUARD in *. split; [lia|].
    assert (Forall short_sample (group b per (Z.of_nat c)))
      by (unfold group; apply Forall_take, Forall_drop, Hshort).
    specialize (Hb ltac:(done)). lia.
  - unfold getDataAsChunks in Hrun. rewrite Hper in Hrun. simpl in Hrun.
    apply (chunk_loop_rest_untouched b k per ltac:(lia) ltac:(lia) Hshort Hper1
             (Z.to_nat k) 0 chunks chunks' N); [lia|lia|lia|done|done].
Qed.

Lemma getDataAsChunks_rows_witness :
  exists chunks' chunkCount,
    getDataAsChunks (addSamples [10; 20] SensorBuffer_new) (blank_chunks 3) 3
    = Done (chunks', chunkCount) /\
    chunks' !! 2%nat = blank_chunks 3 !! 2%nat.
Proof.
  destruct (getDataAsChunks_rows (addSamples [10; 20] SensorBuffer_new)
              (blank_chunks 3) 3) as (chunks' & n & Hrun & _ & _ & Hrest).
  - vm_compute. split; discriminate.
  - assert (Hst : stored (addSamples [10; 20] SensorBuffer_new) = [10; 20])
      by (vm_compute; reflexivity).
    rewrite Hst.
    repeat (apply List.Forall_cons; [unfold short_sample; lia|]). apply List.Forall_nil.
  - vm_compute. split; discriminate.
  - repeat (apply List.Forall_cons; [reflexivity|]). apply List.Forall_nil.
  - exists chunks', n. split; [exact Hrun|]. apply Hrest.
    assert (Hn : Done (chunks', n)
                 = getDataAsChunks (addSamples [10; 20] SensorBuffer_new) (blank_chunks 3) 3)
      by (symmetry; exact Hrun).
    vm_compute in Hn. injection Hn as _ ->. vm_compute. discriminate.
Defined.

Lemma concat_rows_sublist {A} (f g : nat -> list A) (N : nat) :
  (forall c, (c < N)%nat -> f c `sublist_of` g c) ->
  concat (map f (seq 0 N)) `sublist_of` concat (map g (seq 0 N)).
Proof.
  induction N as [|N IH]; intros H; [done|].
  rewrite seq_S, !map_app, !concat_app. simpl. rewrite !app_nil_r.
  apply sublist_app; [apply IH; intros c Hc; apply H; lia|apply H; lia].
Qed.

(** X10. [getDataAsChunks] neither reorders nor invents samples: for
    samples that render in at most ten characters, the decoded chunks
    concatenated in chunk order are a subsequence of the stored samples. *)
Theorem getDataAsChunks_subsequence (b : SensorBuffer) (chunks : list (list ascii)) (k : Z) :
  0 <= sampleCount b <= Z.of_nat (length (samples b)) ->
  Forall short_sample (stored b) ->
  1 <= k <= Z.of_nat (length chunks) ->
  Forall row_ok chunks ->
  exists chunks' chunkCount,
    getDataAsChunks b chunks k = Done (chunks', chunkCount) /\
    concat (decoded_rows chunks' chunkCount) `sublist_of` stored b.
Proof.
  intros Hn Hshort Hk Hok.
  destruct (getDataAsChunks_spec b chunks k Hn Hshort Hk Hok)
    as (per & chunks' & N & Hper & Hper1 & Hrun & HN & _ & Hrows & _).
  exists chunks', N. split; [done|]. unfold decoded_rows.
  trans (concat (map (fun j => group b per (Z.of_nat j)) (seq 0 (Z.to_nat N)))).
  - apply concat_rows_sublist. intros c Hc.
    destruct (Hrows c ltac:(lia)) as [_ ->]. rewrite decode_render.
    destruct (printed_prefix CHUNK_GUARD (group b per (Z.of_nat c)) 0) as (m & _ & ->).
    apply sublist_take.
  - rewrite groups_concat by done. apply sublist_take.
Qed.

Lemma getDataAsChunks_subsequence_witness :
  exists chunks' chunkCount,
    getDataAsChunks (addSamples [1; 2; 3; 4; 5] SensorBuffer_new) (blank_chunks 2) 2
    = Done (chunks', chunkCount) /\
    concat (decoded_rows chunks' chunkCount)
      `sublist_of` stored (addSamples [1; 2; 3; 4; 5] SensorBuffer_new).
Proof.
  apply (getDataAsChunks_subsequence (addSamples [1; 2; 3; 4; 5] SensorBuffer_new)
           (blank_chunks 2) 2).
  - vm_compute. split; discriminate.
  - assert (Hst : stored (addSamples [1; 2; 3; 4; 5] SensorBuffer_new) = [1; 2; 3; 4; 5])
      by (vm_compute; reflexivity).
    rewrite Hst.
    repeat (apply List.Forall_cons; [unfold short_sample; lia|]). apply List.Forall_nil.
  - vm_compute. split; discriminate.
  - repeat (apply List.Forall_cons; [reflexivity|]). apply List.Forall_nil.
Defined.

(* ===================================================================== *)
(** * More on the timer gate *)
(* ===================================================================== *)

Lemma wrap_elapsed (start e : Z) :
  0 <= e < ULONG_MODULUS -> wrap_ulong (wrap_ulong (start + e) - start) = e.
Proof.
  intros He. unfold wrap_ulong, ULONG_MODULUS in *.
  rewrite Zminus_mod_idemp_l.
  replace (start + e - start) with e by lia.
  apply Z.mod_small. lia.
Qed.

(** X11. The timer gate is right across the wrap of the 32-bit clock:
    [e] milliseconds after its start ([0 <= e < 2^32], the clock read
    modulo [2^32]) a delay is complete exactly when its duration is at
    most [e], whether it was started by the constructor or by [reset];
    a delay of duration 0 is complete at once. *)
Theorem isComplete_elapsed (d : NonBlockingDelay) (now ms e : Z) :
  0 <= e < ULONG_MODULUS ->
  isComplete (wrap_ulong (startTime d + e)) d = (duration d <=? e) /\
  isComplete (wrap_ulong (now + e)) (NonBlockingDelay_new now ms) = (ms <=? e) /\
  isComplete (wrap_ulong (now + e)) (reset now ms d)
  = ((if 0 <? ms then ms else duration d) <=? e) /\
  (in_ulong now -> isComplete now (NonBlockingDelay_new now 0) = true).
Proof.
  intros He. unfold isComplete. simpl. rewrite !wrap_elapsed by done.
  split; [done|]. split; [done|]. split; [done|].
  intros _. rewrite Z.sub_diag. done.
Qed.

Lemma isComplete_elapsed_witness :
  isComplete (wrap_ulong (4294967000 + 5000)) (NonBlockingDelay_new 4294967000 5000)
  = true.
Proof.
  destruct (isComplete_elapsed (NonBlockingDelay_new 0 0) 4294967000 5000 5000)
    as (_ & Hnew & _).
  - unfold ULONG_MODULUS. lia.
  - rewrite Hnew. reflexivity.
Defined.

(* ===================================================================== *)
(** * More on the connection manager *)
(* ===================================================================== *)

Lemma connect_success_state (env : Env) (c : GSMConnection) (w : World) :
  isConnected c = false ->
  (connect env c w).1.1 = true ->
  isConnected (connect env c w).1.2 = true /\
  lastConnectionAttempt (connect env c w).1.2 = env_millis env (ticks w) /\
  connectionTimeout (connect env c w).1.2
  = wrap_ulong (env_millis env (ticks w) + CONNECTION_TIMEOUT).
Proof.
  intros Hc Hok.
  destruct (Z.lt_ge_cases (wrap_ulong (env_millis env (ticks w) - lastConnectionAttempt c))
              MIN_RETRY_INTERVAL) as [Hlt|Hge].
  - rewrite (connect_limited env c w Hc Hlt) in Hok. done.
  - destruct (connect_attempts env c w Hc Hge) as (H1 & H2 & H3 & _).
    rewrite Hok in H3. done.
Qed.

(** X12. After a [connect] that succeeds at clock value [t], [isReady] is
    true exactly while the clock reads below [t + 30000], provided
    [t + 30000] does not pass [2^32]. When it does, the stored deadline
    has wrapped around to a small value and [isReady] is false at every
    clock value from [t] up to the wrap: a connection made in the last
    30 seconds before the clock wraps is never ready. *)
Theorem isReady_after_connect (env : Env) (c : GSMConnection) (w w' : World) :
  isConnected c = false ->
  (connect env c w).1.1 = true ->
  in_ulong (env_millis env (ticks w)) ->
  let t := env_millis env (ticks w) in
  let c' := (connect env c w).1.2 in
  let now := env_millis env (ticks w') in
  (t + CONNECTION_TIMEOUT < ULONG_MODULUS ->
     ((isReady env c' w').1 = true <-> now < t + CONNECTION_TIMEOUT)) /\
  (ULONG_MODULUS <= t + CONNECTION_TIMEOUT -> t <= now ->
     (isReady env c' w').1 = false).
Proof.
  intros Hc Hok Ht t c' now.
  destruct (connect_success_state env c w Hc Hok) as (Hconn & _ & Hdead).
  fold c' t in Hconn, Hdead.
  unfold isReady. rewrite Hconn. unfold mbind, IO_bind, mret, IO_ret, millis. simpl.
  fold now. rewrite Hdead.
  unfold in_ulong, wrap_ulong, ULONG_MODULUS, CONNECTION_TIMEOUT in *. fold t in Ht.
  split.
  - intros Hfit. rewrite Z.mod_small by lia. apply Z.ltb_lt.
  - intros Hwrap Hnow. apply Z.ltb_ge.
    replace ((t + 30000) mod 2 ^ 32) with (t + 30000 - 2 ^ 32); [lia|].
    symmetry. rewrite <- (Z_mod_plus_full _ (-1)). apply Z.mod_small. lia.
Qed.

Lemma isReady_after_connect_witness :
  (connect late_env GSMConnection_new boot).1.1 = true /\
  (isReady late_env (connect late_env GSMConnection_new boot).1.2
     (connect late_env GSMConnection_new boot).2).1 = false.
Proof.
  split; [reflexivity|].
  destruct (isReady_after_connect late_env GSMConnection_new boot
              (connect late_env GSMConnection_new boot).2) as [_ Hwrap].
  - reflexivity.
  - reflexivity.
  - vm_compute. split; [discriminate|reflexivity].
  - apply Hwrap; vm_compute; discriminate.
Defined.

(** X13. A connection that is marked connected is never re-attached. For
    every clock value, before or after the deadline, [sendData] on it
    leaves the object as it is, puts exactly one query to the outside, the
    client's [connect], never reaches the modem, and returns true exactly
    when that [connect] answers non-zero. *)
Theorem sendData_when_connected (env : Env) (url method : string)
    (c : GSMConnection) (w : World) :
  isConnected c = true ->
  let r := sendData env url method c w in
  let answer := env_connect env (polls w) in
  r.1.2 = c /\
  (r.1.1 = true <-> answer <> 0) /\
  polls r.2 = S (polls w) /\
  log r.2 = log w ++ transport_events url method answer /\
  Forall (fun e => touches_modem e = false) (transport_events url method answer).
Proof.
  intros Hc r answer.
  assert (Hquiet : Forall (fun e => touches_modem e = false)
                     (transport_events url method answer)).
  { unfold transport_events. destruct (answer =? 0); repeat constructor. }
  assert (Hr : r = ((negb (answer =? 0), c),
                    {| ticks := ticks r.2; polls := S (polls w);
                       log := log w ++ transport_events url method answer |})).
  { unfold r, answer. io_unfold. rewrite Hc. simpl. unfold transport_events.
    destruct (env_millis env (ticks w) <? connectionTimeout c); simpl;
      destruct (env_connect env (polls w) =? 0); simpl;
      rewrite <- ?app_assoc; done. }
  rewrite Hr. simpl. split; [done|]. split; [|done].
  destruct (answer =? 0) eqn:Hans; simpl.
  - apply Z.eqb_eq in Hans. split; [done|]. intros H. done.
  - apply Z.eqb_neq in Hans. done.
Qed.

Lemma sendData_when_connected_witness :
  (sendData quiet_env "/update" "GET"
     {| isConnected := true; lastConnectionAttempt := 0; connectionTimeout := 30000 |}
     boot).1.1 = true.
Proof.
  destruct (sendData_when_connected quiet_env "/update" "GET"
              {| isConnected := true; lastConnectionAttempt := 0;
                 connectionTimeout := 30000 |} boot) as (_ & Hiff & _).
  - reflexivity.
  - apply Hiff. vm_compute. discriminate.
Defined.

(** X14. [disconnect] stops the client once: on a connected object it
    logs the stop and the closing message and clears [isConnected],
    keeping the two timestamps; a second [disconnect] does nothing at all;
    and after [disconnect] [isReady] is false whatever the clock reads. *)
Theorem disconnect_idempotent (env : Env) (c : GSMConnection) (w w' : World) :
  let d := disconnect c w in
  isConnected d.1 = false /\
  lastConnectionAttempt d.1 = lastConnectionAttempt c /\
  connectionTimeout d.1 = connectionTimeout c /\
  log d.2 = log w ++ (if isConnected c
                      then [Client_stop; Serial_print ("GSM connection closed" +:+ CRLF)]
                      else []) /\
  disconnect d.1 d.2 = d /\
  isReady env d.1 w' = (false, w').
Proof.
  io_unfold. destruct (isConnected c) eqn:Hc; simpl.
  - rewrite <- app_assoc. done.
  - rewrite Hc, app_nil_r. by destruct c, w; simpl in *; subst.
Qed.

(** X15. The rate limit outlives a [disconnect]: on an object that was
    connected, [disconnect] followed by a [connect] less than 5000 ms
    after the recorded last attempt gets false and does not reach the
    modem; the object stays disconnected. *)
Theorem connect_after_disconnect_limited (env : Env) (c : GSMConnection) (w : World) :
  isConnected c = true ->
  let d := disconnect c w in
  wrap_ulong (env_millis env (ticks d.2) - lastConnectionAttempt c) < MIN_RETRY_INTERVAL ->
  connect env d.1 d.2 = ((false, d.1), after_tick d.2) /\
  isConnected d.1 = false.
Proof.
  intros Hc d Hlt.
  assert (Hd : isConnected d.1 = false /\ lastConnectionAttempt d.1 = lastConnectionAttempt c).
  { unfold d. io_unfold. by rewrite Hc. }
  destruct Hd as [Hd1 Hd2]. split; [|done].
  apply connect_limited; [done|]. by rewrite Hd2.
Qed.

Lemma connect_after_disconnect_limited_witness :
  let c := (connect quiet_env GSMConnection_new boot).1.2 in
  let w := (connect quiet_env GSMConnection_new boot).2 in
  connect quiet_env (disconnect c w).1 (disconnect c w).2
  = ((false, (disconnect c w).1), after_tick (disconnect c w).2).
Proof.
  intros c w.
  destruct (connect_after_disconnect_limited quiet_env c w) as [Hlim _].
  - reflexivity.
  - vm_compute. reflexivity.
  - exact Hlim.
Defined.

(** X16. [handleResponse] takes at most one byte per call: it reads one
    byte exactly when the first [available()] answers non-zero; it stops
    the client exactly when the second [available()] answers zero and
    [connected()] answers zero; it never reads the clock and never
    reaches the modem. *)
Theorem handleResponse_effects (env : Env) (w : World) :
  let r := handleResponse env w in
  let first := env_available env (polls w) in
  let k := if first =? 0 then S (polls w) else S (S (polls w)) in
  exists new,
    log r.2 = log w ++ new /\
    ticks r.2 = ticks w /\
    length (List.filter is_read new) = (if first =? 0 then 0%nat else 1%nat) /\
    existsb is_stop new
    = (env_available env k =? 0) && (env_connected env (S k) =? 0) /\
    Forall (fun e => touches_modem e = false) new.
Proof.
  io_unfold.
  destruct (env_available env (polls w) =? 0) eqn:Hfirst; simpl;
    repeat io_case; rewrite <- ?app_assoc; simpl;
    eexists; (split; [reflexivity|]); simpl; repeat split; repeat constructor.
Qed.

Lemma handleResponse_log (env : Env) (w : World) :
  exists new, log (handleResponse env w).2 = log w ++ new.
Proof.
  io_unfold. repeat io_case; rewrite <- ?app_assoc; simpl; eexists; reflexivity.
Qed.

Lemma isReady_log (env : Env) (c : GSMConnection) (w : World) :
  log (isReady env c w).2 = log w.
Proof. io_unfold. by destruct (isConnected c). Qed.

Lemma response_loop_log (env : Env) (d : NonBlockingDelay) (gsm : GSMConnection) :
  forall fuel w, exists new, log (response_loop env fuel d gsm w).2 = log w ++ new.
Proof.
  induction fuel as [|fuel IH]; intros w.
  - exists []. simpl. by rewrite app_nil_r.
  - rewrite response_loop_step.
    destruct (isComplete (env_millis env (ticks w)) d).
    { exists []. simpl. by rewrite app_nil_r. }
    cbv zeta.
    destruct (handleResponse_log env (after_tick w)) as (new1 & Hnew1).
    pose proof (isReady_log env gsm (handleResponse env (after_tick w)).2) as Hready.
    destruct (negb (isReady env gsm (handleResponse env (after_tick w)).2).1).
    + exists new1. simpl. by rewrite Hready, Hnew1.
    + destruct (IH (isReady env gsm (handleResponse env (after_tick w)).2).2)
        as (new2 & Hnew2).
      exists (new1 ++ new2). by rewrite Hnew2, Hready, Hnew1, app_assoc.
Qed.

Lemma sendData_log_extends (env : Env) (url method : string) (c : GSMConnection)
    (w : World) :
  exists new,
    log (sendData env url method c w).2 = log (ensure_ready env c w).2 ++ new.
Proof.
  unfold sendData. unfold mbind at 1, IO_bind.
  destruct (ensure_ready env c w) as [[go_on c1] w1]. simpl.
  destruct go_on.
  - unfold query, client_print, client_println, Serial_println, emit,
      mbind, IO_bind, mret, IO_ret. simpl.
    destruct (env_connect env (polls w1) =? 0); simpl;
      rewrite <- ?app_assoc; eexists; reflexivity.
  - exists []. simpl. by rewrite app_nil_r.
Qed.

Lemma sendToThingSpeak_log_extends (env : Env) (fuel : nat) (data : string)
    (field : Z) (w : World) :
  exists new,
    log (sendToThingSpeak env fuel data field w).2
    = log (sendData env (update_url data field) "GET" GSMConnection_new w).2 ++ new.
Proof.
  unfold sendToThingSpeak. unfold mbind at 1, IO_bind.
  destruct (sendData env (update_url data field) "GET" GSMConnection_new w)
    as [[sent gsm'] w1]. simpl.
  destruct sent.
  - unfold mbind, IO_bind, mret, IO_ret, millis. simpl. fold (after_tick w1).
    destruct (response_loop_log env
                (NonBlockingDelay_new (env_millis env (ticks w1)) 5000) gsm'
                fuel (after_tick w1)) as (new & Hnew).
    destruct (response_loop env fuel _ gsm' (after_tick w1)) as [left w2].
    simpl in *. exists new. done.
  - exists []. simpl. by rewrite app_nil_r.
Qed.

(** X17. [sendToThingSpeak] works on a connection of its own, whose last
    attempt is recorded as time 0. Called while the clock reads less than
    5000 ms it returns false having done nothing but read the clock once:
    nothing is sent to the modem or the server and nothing is printed.
    Called at 5000 ms or later it attaches the modem anew on every call:
    what it logs begins with the attach attempt. *)
Theorem sendToThingSpeak_fresh_connection (env : Env) (fuel : nat) (data : string)
    (field : Z) (w : World) :
  let t := env_millis env (ticks w) in
  (wrap_ulong t < MIN_RETRY_INTERVAL ->
     sendToThingSpeak env fuel data field w = (Some false, after_tick w)) /\
  (MIN_RETRY_INTERVAL <= wrap_ulong t ->
     exists rest,
       log (sendToThingSpeak env fuel data field w).2
       = log w ++ attempt_events ++ rest).
Proof.
  intros t.
  assert (Hready : ensure_ready env GSMConnection_new w = connect env GSMConnection_new w)
    by done.
  split.
  - intros Hlt.
    assert (Hc : connect env GSMConnection_new w = ((false, GSMConnection_new), after_tick w)).
    { apply connect_limited; [done|]. simpl. by rewrite Z.sub_0_r. }
    assert (Hs : sendData env (update_url data field) "GET" GSMConnection_new w
                 = ((false, GSMConnection_new), after_tick w)).
    { unfold sendData. unfold mbind at 1, IO_bind. by rewrite Hready, Hc. }
    unfold sendToThingSpeak. unfold mbind at 1, IO_bind. by rewrite Hs.
  - intros Hge.
    destruct (connect_attempts env GSMConnection_new w eq_refl) as (_ & _ & _ & rest & Hlog).
    { simpl. by rewrite Z.sub_0_r. }
    destruct (sendData_log_extends env (update_url data field) "GET" GSMConnection_new w)
      as (new1 & Hnew1).
    destruct (sendToThingSpeak_log_extends env fuel data field w) as (new2 & Hnew2).
    rewrite Hready, Hlog in Hnew1. rewrite Hnew1 in Hnew2.
    exists (rest ++ new1 ++ new2). rewrite Hnew2, <- !app_assoc. done.
Qed.

Lemma sendToThingSpeak_fresh_connection_witness :
  sendToThingSpeak early_env 5 "512" 1 boot = (Some false, after_tick boot) /\
  exists rest,
    log (sendToThingSpeak quiet_env 5 "512" 1 boot).2 = log boot ++ attempt_events ++ rest.
Proof.
  split.
  - destruct (sendToThingSpeak_fresh_connection early_env 5 "512" 1 boot) as [Hearly _].
    apply Hearly. vm_compute. reflexivity.
  - destruct (sendToThingSpeak_fresh_connection quiet_env 5 "512" 1 boot) as [_ Hlate].
    apply Hlate. vm_compute. discriminate.
Defined.

(* ===================================================================== *)
(** * The URL builders *)
(* ===================================================================== *)

Lemma string_length_append (s1 s2 : string) :
  String.length (s1 +:+ s2) = (String.length s1 + String.length s2)%nat.
Proof. induction s1 as [|c s1 IH]; simpl; [done|]. by rewrite IH. Qed.

Lemma string_length_of_list (l : list ascii) :
  String.length (string_of_list_ascii l) = length l.
Proof. induction l as [|c l IH]; simpl; [done|]. by rewrite IH. Qed.

Lemma substring_0_whole (s : string) : forall n,
  (String.length s <= n)%nat -> substring 0 n s = s.
Proof.
  induction s as [|c s IH]; intros n Hn; simpl in *.
  - by destruct n.
  - destruct n as [|n]; [lia|]. rewrite IH by lia. done.
Qed.

Lemma substring_0_length (s : string) : forall n,
  (String.length (substring 0 n s) <= n)%nat.
Proof.
  induction s as [|c s IH]; intros n; simpl.
  - destruct n; simpl; lia.
  - destruct n as [|n]; simpl; [lia|]. specialize (IH n). lia.
Qed.

Lemma show_int_length (v : Z) :
  in_int v -> (1 <= String.length (show_int v) <= 11)%nat.
Proof.
  intros Hv. unfold show_int. rewrite string_length_of_list.
  pose proof (int_length v Hv) as H12. pose proof (fmt_d_nonempty v) as Hne.
  unfold fmt_d_sp in H12. rewrite length_app in H12. simpl in H12.
  destruct (fmt_d v); [done|]. simpl in *. lia.
Qed.

(** X18. For every [int] field number and value the write URL of
    [buildThingSpeakURL] is the whole formatted text,
    [/update?api_key=<key>&field<field>=<value>], of at most 61
    characters: the 200 bytes given to [snprintf] never cut it. *)
Theorem buildThingSpeakURL_write_whole (field value : Z) :
  in_int field -> in_int value ->
  buildThingSpeakURL field value true
  = "/update?api_key=POWWNFLAIARHZL10&field" +:+ show_int field
    +:+ "=" +:+ show_int value /\
  (String.length (buildThingSpeakURL field value true) <= 61)%nat.
Proof.
  intros Hf Hv. pose proof (show_int_length field Hf). pose proof (show_int_length value Hv).
  assert (Hlen : (String.length (write_url_text field value) <= 61)%nat).
  { unfold write_url_text. rewrite !string_length_append. simpl. lia. }
  unfold buildThingSpeakURL, snprintf_200. rewrite substring_0_whole by lia.
  split; [done|exact Hlen].
Qed.

Lemma buildThingSpeakURL_write_whole_witness :
  buildThingSpeakURL 1 512 true = "/update?api_key=POWWNFLAIARHZL10&field1=512".
Proof.
  destruct (buildThingSpeakURL_write_whole 1 512) as [Hurl _].
  - unfold in_int, INT_MIN, INT_MAX. lia.
  - unfold in_int, INT_MIN, INT_MAX. lia.
  - rewrite Hurl. reflexivity.
Defined.

(** X19. The read form of [buildThingSpeakURL] ignores its [value]
    argument and is [buildThingSpeakReadURL] with [results = 2]; for
    every [int] field number and result count the read URL is the whole
    formatted text, of at most 90 characters, never cut by the 200 bytes
    given to [snprintf]. *)
Theorem buildThingSpeakReadURL_whole (field value results : Z) :
  in_int field -> in_int results ->
  buildThingSpeakURL field value false = buildThingSpeakReadURL field 2 /\
  buildThingSpeakReadURL field results
  = "/channels/455094/fields/" +:+ show_int field
    +:+ "/last.json?api_key=43F8VBLWVJP4Y2FN&results=" +:+ show_int results /\
  (String.length (buildThingSpeakReadURL field results) <= 90)%nat.
Proof.
  intros Hf Hr. split; [done|].
  pose proof (show_int_length field Hf). pose proof (show_int_length results Hr).
  assert (Hlen : (String.length (read_url_text field (show_int results)) <= 90)%nat).
  { unfold read_url_text. rewrite !string_length_append. simpl. lia. }
  unfold buildThingSpeakReadURL, snprintf_200. rewrite substring_0_whole by lia.
  split; [done|exact Hlen].
Qed.

Lemma buildThingSpeakReadURL_whole_witness :
  buildThingSpeakReadURL 3 10
  = "/channels/455094/fields/3/last.json?api_key=43F8VBLWVJP4Y2FN&results=10".
Proof.
  destruct (buildThingSpeakReadURL_whole 3 0 10) as (_ & Hurl & _).
  - unfold in_int, INT_MIN, INT_MAX. lia.
  - unfold in_int, INT_MIN, INT_MAX. lia.
  - rewrite Hurl. reflexivity.
Defined.

(** X20. The URL [sendToThingSpeak] sends never has more than 299
    characters, the room of [char url[300]]. With an [int] field number
    and data of at most 249 characters, which covers every chunk of
    [getDataAsChunks] (at most 199 characters), it is the whole text
    [/update?api_key=<key>&field<field>=<data>]; longer data is cut at the
    end without notice. *)
Theorem update_url_fits (data : string) (field : Z) :
  (String.length (update_url data field) <= 299)%nat /\
  update_url data field = substring 0 299 (update_url_text data field) /\
  (in_int field -> (String.length data <= 249)%nat ->
     update_url data field
     = "/update?api_key=POWWNFLAIARHZL10&field" +:+ show_int field +:+ "=" +:+ data).
Proof.
  split; [apply substring_0_length|]. split; [done|].
  intros Hf Hd. pose proof (show_int_length field Hf) as Hlen. unfold show_int in *.
  unfold update_url. rewrite substring_0_whole; [done|].
  rewrite !string_length_append. simpl. lia.
Qed.

Lemma update_url_fits_witness :
  update_url "10 20 30 " 2 = "/update?api_key=POWWNFLAIARHZL10&field2=10 20 30 ".
Proof.
  destruct (update_url_fits "10 20 30 " 2) as (_ & _ & Hwhole).
  rewrite Hwhole.
  - reflexivity.
  - unfold in_int, INT_MIN, INT_MAX. lia.
  - simpl. lia.
Defined.

(** Data too long for the array loses its end. *)
Example update_url_cuts_long_data :
  let data := string_of_list_ascii (replicate 300 "7"%char) in
  String.length (update_url data 1) = 299%nat /\
  update_url data 1 <> update_url_text data 1.
Proof.
  split; [vm_compute; reflexivity|].
  intros H. apply (f_equal String.length) in H. vm_compute in H. discriminate.
Qed.

(* ===================================================================== *)
(** * waitForResponse *)
(* ===================================================================== *)

Lemma string_app_assoc (a b c : string) : (a +:+ b) +:+ c = a +:+ (b +:+ c).
Proof.
  induction a as [|x a IH]; [done|].
  change (String x ((a +:+ b) +:+ c) = String x (a +:+ (b +:+ c))). by rewrite IH.
Qed.

Lemma string_app_empty_r (a : string) : a +:+ EmptyString = a.
Proof.
  induction a as [|x a IH]; [done|].
  change (String x (a +:+ EmptyString) = String x a). by rewrite IH.
Qed.

(** What the loop has done when it answers, for any text gathered
    before. *)
Lemma wait_loop_outcome (indexOf : string -> string -> Z) (delay : NonBlockingDelay)
    (expected : string) (turns : list Turn) : forall response answer r,
  wait_loop indexOf delay expected response turns = (Some answer, r) ->
  exists (n : nat) (t : Turn),
    turns !! n = Some t /\
    Forall (fun u => isComplete (turn_millis u) delay = false) (take n turns) /\
    if answer then
      isComplete (turn_millis t) delay = false /\
      turn_available t <> 0 /\
      r = response +:+ offered (take (S n) turns) /\
      0 <= indexOf r expected
    else
      isComplete (turn_millis t) delay = true /\
      r = response +:+ offered (take n turns).
Proof.
  induction turns as [|t turns IH]; intros response answer r Hrun; simpl in Hrun; [done|].
  destruct (isComplete (turn_millis t) delay) eqn:Hdone.
  - injection Hrun as <- <-. exists 0%nat, t. simpl.
    split; [done|]. split; [constructor|]. by rewrite string_app_empty_r.
  - destruct (turn_available t =? 0) eqn:Hav; simpl in Hrun.
    + destruct (IH _ _ _ Hrun) as (n & u & Hu & Hbefore & Hend).
      exists (S n), u. split; [done|]. split; [by constructor|].
      destruct answer; simpl; rewrite Hav; done.
    + apply Z.eqb_neq in Hav.
      destruct (0 <=? indexOf (response +:+ String (turn_read t) EmptyString) expected)
        eqn:Hfound.
      * injection Hrun as <- <-. exists 0%nat, t. simpl.
        split; [done|]. split; [constructor|].
        destruct (turn_available t =? 0) eqn:Hav'; [apply Z.eqb_eq in Hav'; done|].
        split; [done|]. split; [done|]. split; [done|]. by apply Z.leb_le.
      * destruct (IH _ _ _ Hrun) as (n & u & Hu & Hbefore & Hend).
        exists (S n), u. split; [done|]. split; [by constructor|].
        apply Z.eqb_neq in Hav.
        destruct answer; simpl; rewrite Hav, string_app_assoc in *; done.
Qed.

(** X21. When [waitForResponse] answers true, the text it gathered is
    exactly the bytes the serial line offered up to and including the
    turn of the answer, one byte a turn, [indexOf] finds the expected text
    in it, and no clock reading so far showed the timeout elapsed. When it
    answers false, a clock reading showed the timeout elapsed, and the
    text is what was offered before that turn: nothing is read in or
    after the turn that sees the timeout. *)
Theorem waitForResponse_outcome (indexOf : string -> string -> Z)
    (start : Z) (expected : string) (timeout : Z) (turns : list Turn)
    (answer : bool) (r : string) :
  waitForResponse indexOf start expected timeout turns = (Some answer, r) ->
  let delay := NonBlockingDelay_new start timeout in
  exists (n : nat) (t : Turn),
    turns !! n = Some t /\
    Forall (fun u => isComplete (turn_millis u) delay = false) (take n turns) /\
    if answer then
      isComplete (turn_millis t) delay = false /\
      turn_available t <> 0 /\
      r = offered (take (S n) turns) /\
      0 <= indexOf r expected
    else
      isComplete (turn_millis t) delay = true /\
      r = offered (take n turns).
Proof.
  intros Hrun delay. apply (wait_loop_outcome indexOf delay expected turns "" answer r Hrun).
Qed.

Lemma waitForResponse_outcome_witness :
  exists (n : nat) (t : Turn),
    ok_turns !! n = Some t /\
    Forall (fun u => isComplete (turn_millis u) (NonBlockingDelay_new 1000 5000) = false)
           (take n ok_turns) /\
    isComplete (turn_millis t) (NonBlockingDelay_new 1000 5000) = false /\
    turn_available t <> 0 /\
    "OK"%string = offered (take (S n) ok_turns) /\
    0 <= ok_at_front "OK" "OK".
Proof.
  apply (waitForResponse_outcome ok_at_front 1000 "OK" 5000 ok_turns true "OK").
  vm_compute. reflexivity.
Defined.

(** X22. With a timeout of 0 [waitForResponse] answers false on its first
    turn without reading a byte, whatever is waiting on the serial line
    and whatever text is expected. *)
Theorem waitForResponse_zero_timeout (indexOf : string -> string -> Z)
    (start : Z) (expected : string) (turns : list Turn) :
  turns <> [] ->
  waitForResponse indexOf start expected 0 turns = (Some false, EmptyString).
Proof.
  destruct turns as [|t turns]; [done|]. intros _.
  unfold waitForResponse. simpl.
  assert (H : isComplete (turn_millis t) (NonBlockingDelay_new start 0) = true).
  { unfold isComplete. simpl. apply Z.leb_le.
    pose proof (wrap_ulong_in_range (turn_millis t - start)) as [H _]. done. }
  by rewrite H.
Qed.

Lemma waitForResponse_zero_timeout_witness :
  waitForResponse ok_at_front 1000 "OK" 0 ok_turns = (Some false, EmptyString).
Proof. apply waitForResponse_zero_timeout. discriminate. Defined.

(* ===================================================================== *)
(** * Stores of getDataAsChunks, whatever the samples *)
(* ===================================================================== *)





(* ===================================================================== *)
(** * The outcome of an attach attempt *)
(* ===================================================================== *)

(** X24. A [connect] call that is due (not connected, at least 5000 ms
    after the last attempt) succeeds exactly when [begin] answers
    [GSM_READY] and [attachGPRS] then answers [GPRS_READY]; [attachGPRS]
    is not called when [begin] fails. Success or not, the attempt time
    and the deadline are recorded, and [isConnected] is set exactly on
    success. *)
Theorem connect_result (env : Env) (c : GSMConnection) (w : World) :
  isConnected c = false ->
  MIN_RETRY_INTERVAL <= wrap_ulong (env_millis env (ticks w) - lastConnectionAttempt c) ->
  let r := connect env c w in
  let began := env_begin env (polls w) in
  let attached := env_attachGPRS env (S (polls w)) in
  (r.1.1 = true <-> began = GSM_READY /\ attached = GPRS_READY) /\
  isConnected r.1.2 = r.1.1 /\
  lastConnectionAttempt r.1.2 = env_millis env (ticks w) /\
  connectionTimeout r.1.2 = wrap_ulong (env_millis env (ticks w) + CONNECTION_TIMEOUT) /\
  polls r.2 = (if decide (began = GSM_READY) then S (S (polls w)) else S (polls w)) /\
  (began <> GSM_READY ->
     Forall (fun e => e <> GPRS_attachGPRS GPRS_APN GPRS_LOGIN GPRS_PASSWORD)
            (drop (length (log w)) (log r.2))).
Proof.
  intros Hc Hge. io_unfold. rewrite Hc.
  destruct (_ <? _) eqn:H; [lia|]. simpl.
  destruct (decide (env_begin env (polls w) = GSM_READY)) as [Hb|Hb]; simpl.
  - destruct (decide (env_attachGPRS env (S (polls w)) = GPRS_READY)) as [Ha|Ha]; simpl.
    + split; [done|]. repeat (split; [done|]). done.
    + split; [split; [done|by intros [_ ?]]|]. repeat (split; [done|]). done.
  - split; [split; [done|by intros [? _]]|]. repeat (split; [done|]).
    intros _. rewrite <- !app_assoc, drop_app_length. simpl.
    repeat (constructor; [done|]). constructor.
Qed.

Lemma connect_result_witness :
  (connect quiet_env GSMConnection_new boot).1.1 = true /\
  isConnected (connect quiet_env GSMConnection_new boot).1.2 = true.
Proof.
  destruct (connect_result quiet_env GSMConnection_new boot) as (Hiff & Hconn & _).
  - reflexivity.
  - vm_compute. discriminate.
  - assert (Hok : (connect quiet_env GSMConnection_new boot).1.1 = true).
    { apply Hiff. split; reflexivity. }
    split; [exact Hok|]. rewrite Hconn. exact Hok.
Defined.
